(** * TcCliTools: TwinCAT library references and libraries

    A shallow embedding of [tcclitools/tclibrary/tclibraryreference.py] and
    [tcclitools/tclibrary/tclibrary.py].

    - Python [str] values are modelled as ASCII strings; [str.lower] is the
      ASCII lower-casing.
    - A raised exception is a value of [exception]; a Python function that
      may raise returns a [result].
    - [packaging.version] is an external library: the embedding is written
      against the interface [PackagingVersion] (parse, [str], comparison of
      the version keys) and run on the instance [release_versions], the
      dotted release versions ["3.3.3.0"].
    - The process-wide state of [UniquePath] and the file system are passed
      explicitly. *)

From Stdlib Require Import String Ascii List Bool Arith Lia NArith.
From Stdlib Require Import DecimalString DecimalN Sorted.
From stdpp Require Import base option gmap strings list.

(** ** Text *)

Module Text.

(** The character that [.] of a regular expression does not match. *)
Definition newline : ascii := "010"%char.

(** A double quote, for the messages that quote their argument. *)
Definition dquote : string := String "034"%char EmptyString.

Fixpoint string_forall (P : ascii → bool) (s : string) : bool :=
  match s with
  | EmptyString => true
  | String c s' => P c && string_forall P s'
  end.

(** [single_line s]: no line break in [s]. *)
Definition single_line (s : string) : bool :=
  string_forall (fun c => negb (Ascii.eqb c newline)) s.

(** [startswith p s] is Python's [s.startswith(p)]. *)
Fixpoint startswith (p s : string) : bool :=
  match p, s with
  | EmptyString, _ => true
  | String c p', String d s' => Ascii.eqb c d && startswith p' s'
  | String _ _, EmptyString => false
  end.

(** [contains p s] is Python's [p in s]. *)
Fixpoint contains (p s : string) : bool :=
  startswith p s ||
  match s with
  | EmptyString => false
  | String _ s' => contains p s'
  end.

(** [str.lower] on ASCII text. *)
Definition lower_ascii (c : ascii) : ascii :=
  let n := nat_of_ascii c in
  if (65 <=? n) && (n <=? 90) then ascii_of_nat (n + 32) else c.

Fixpoint lower (s : string) : string :=
  match s with
  | EmptyString => EmptyString
  | String c s' => String (lower_ascii c) (lower s')
  end.

(** *** A match without regard to case, in the words of the specification

    Not from the source: what it is for two texts to match without regard
    to case, written without [lower], to compare the test of [__eq__]
    with. The letters are the twenty-six of the two alphabets; a capital
    and a small letter belong together when they stand at the same place. *)

Definition capital_letters : string := "ABCDEFGHIJKLMNOPQRSTUVWXYZ".
Definition small_letters : string := "abcdefghijklmnopqrstuvwxyz".

(** [paired us ls c d]: [c] stands in [us] where [d] stands in [ls]. *)
Fixpoint paired (us ls : string) (c d : ascii) : bool :=
  match us, ls with
  | String u us', String l ls' =>
      (Ascii.eqb c u && Ascii.eqb d l) || paired us' ls' c d
  | _, _ => false
  end.

(** The same character, or the capital and the small form of one letter. *)
Definition spec_same_letter (c d : ascii) : bool :=
  Ascii.eqb c d
  || paired capital_letters small_letters c d
  || paired capital_letters small_letters d c.

Fixpoint spec_match_ignoring_case (s t : string) : bool :=
  match s, t with
  | EmptyString, EmptyString => true
  | String c s', String d t' =>
      spec_same_letter c d && spec_match_ignoring_case s' t'
  | _, _ => false
  end.

(** Text of the 128 ASCII characters, on which [lower] is Python's
    [str.lower]. *)
Definition ascii_text (s : string) : bool :=
  string_forall (fun c => nat_of_ascii c <? 128) s.

End Text.
Import Text.

(** ** Exceptions and results *)

Inductive exception : Type :=
| TcLibraryException (msg : string)
| FileNotFoundError (msg : string)
| TypeError
| IndexError
| DuplicatePathError.

Inductive result (A : Type) : Type :=
| Ok (a : A)
| Raise (e : exception).
Arguments Ok {A} a.
Arguments Raise {A} e.

#[global] Instance result_ret : MRet result := fun A a => Ok a.
#[global] Instance result_bind : MBind result := fun A B k m =>
  match m with
  | Ok a => k a
  | Raise e => Raise e
  end.

(** ** The regular expression [_RE_LIBRARY_REF]

    The pattern is [^G, G \(G\)], where [G] stands for a capturing group
    of "dot star": any characters but a line break, as many as possible.

    A backtracking matcher in continuation style, as [re.match] runs the
    pattern: [lit p] matches the literal [p]; [dotstar s k] is a group [G]
    followed by the rest of the pattern [k]: it first lets the
    group take one more character (never a line break) and falls back to
    the shorter group when the rest then fails. *)

Module Regex.

Fixpoint lit (p s : string) : option string :=
  match p with
  | EmptyString => Some s
  | String c p' =>
      match s with
      | EmptyString => None
      | String d s' => if Ascii.eqb c d then lit p' s' else None
      end
  end.

Fixpoint dotstar {A : Type} (s : string) (k : string → option A)
  : option (string * A) :=
  match s with
  | EmptyString => pair EmptyString <$> k EmptyString
  | String c s' =>
      if Ascii.eqb c newline then pair EmptyString <$> k s
      else
        match dotstar s' k with
        | Some (g, a) => Some (String c g, a)
        | None => pair EmptyString <$> k s
        end
  end.

(** The tail of the pattern after each group. *)
Definition after_company (s : string) : option string := lit ")" s.

Definition after_version (s : string) : option (string * string) :=
  s' ← lit " (" s; dotstar s' after_company.

Definition after_title (s : string) : option (string * (string * string)) :=
  s' ← lit ", " s; dotstar s' after_version.

(** [_RE_LIBRARY_REF.match(full_name)] and its three groups; [None] when
    the pattern does not match. The text after the closing parenthesis is
    not looked at (the pattern has no [$]). *)
Definition _RE_LIBRARY_REF (full_name : string)
  : option (string * string * string) :=
  match dotstar full_name after_title with
  | Some (g1, (g2, (g3, _))) => Some (g1, g2, g3)
  | None => None
  end.

(** The pattern read as a relation: [full_name] starts with the title, a
    comma and a space, the version, a space, and the company between
    parentheses, none of the three holding a line break. *)
Definition matches (full_name title version company : string) : Prop :=
  single_line title = true ∧ single_line version = true
  ∧ single_line company = true
  ∧ ∃ rest, full_name
            = title +:+ ", " +:+ version +:+ " (" +:+ company +:+ ")" +:+ rest.

End Regex.
Import Regex.

(** ** packaging.version *)

(** The characters of a normalised PEP 440 version string. *)
Definition pep440_char (c : ascii) : bool :=
  let n := nat_of_ascii c in
  ((48 <=? n) && (n <=? 57)) || ((97 <=? n) && (n <=? 122))
  || Ascii.eqb c "." || Ascii.eqb c "!" || Ascii.eqb c "+".

(** What the embedding uses of [packaging.version]:
    [version_parse] is [version.parse] ([None] when it raises
    [InvalidVersion]), [version_str] is [Version.__str__] and [version_cmp]
    compares the keys of two versions, from which [==], [<] and [>] are
    read. The laws are those of the library: the keys are totally
    preordered, [str] gives the normalised text, and parsing it gives a
    version equal to the one printed. *)
Class PackagingVersion : Type := {
  Version : Type;
  version_parse : string → option Version;
  version_str : Version → string;
  version_cmp : Version → Version → comparison;
  version_cmp_refl : ∀ v, version_cmp v v = Eq;
  version_cmp_opp : ∀ a b, version_cmp b a = CompOpp (version_cmp a b);
  version_cmp_trans : ∀ a b c,
    version_cmp a b ≠ Gt → version_cmp b c ≠ Gt → version_cmp a c ≠ Gt;
  version_str_chars : ∀ v,
    version_str v ≠ EmptyString ∧ string_forall pep440_char (version_str v) = true;
  version_parse_str : ∀ v,
    ∃ v', version_parse (version_str v) = Some v' ∧ version_cmp v' v = Eq;
}.

(** ** Values of type [str | Version] and Python's comparisons on them *)

Section PyValues.
Context `{PackagingVersion}.

Inductive StrOrVersion : Type :=
| VStr (s : string)
| VVer (v : Version).

(** [str(x)]. *)
Definition py_str (x : StrOrVersion) : string :=
  match x with
  | VStr s => s
  | VVer v => version_str v
  end.

(** [x == y]: a [str] and a [Version] are never equal. *)
Definition py_eq (x y : StrOrVersion) : bool :=
  match x, y with
  | VStr s, VStr t => String.eqb s t
  | VVer a, VVer b => match version_cmp a b with Eq => true | _ => false end
  | _, _ => false
  end.

(** [x < y] and [x > y]: between a [str] and a [Version] both operands
    answer [NotImplemented] and Python raises [TypeError]. *)
Definition py_lt (x y : StrOrVersion) : result bool :=
  match x, y with
  | VStr s, VStr t => Ok (String.ltb s t)
  | VVer a, VVer b => Ok (match version_cmp a b with Lt => true | _ => false end)
  | _, _ => Raise TypeError
  end.

Definition py_gt (x y : StrOrVersion) : result bool :=
  match x, y with
  | VStr s, VStr t => Ok (String.ltb t s)
  | VVer a, VVer b => Ok (match version_cmp a b with Gt => true | _ => false end)
  | _, _ => Raise TypeError
  end.

(** [sorted(l, key=key)]: the sort is stable and compares keys with [<]
    only; it is modelled as the stable insertion sort, which raises what a
    comparison raises. *)
Fixpoint insort {A : Type} (key : A → StrOrVersion) (x : A) (l : list A)
  : result (list A) :=
  match l with
  | [] => Ok [x]
  | y :: l' =>
      b ← py_lt (key y) (key x);
      if (b : bool) then l'' ← insort key x l'; Ok (y :: l'')
      else Ok (x :: y :: l')
  end.

Fixpoint sorted {A : Type} (key : A → StrOrVersion) (l : list A)
  : result (list A) :=
  match l with
  | [] => Ok []
  | x :: l' => s ← sorted key l'; insort key x s
  end.

(** *** Words of the specification *)

(** Both keys are strings or both are parsed versions. *)
Definition same_kind (x y : StrOrVersion) : bool :=
  match x, y with
  | VStr _, VStr _ | VVer _, VVer _ => true
  | _, _ => false
  end.

(** [y < x] holds (and does not raise). *)
Definition older {A : Type} (key : A → StrOrVersion) (y x : A) : bool :=
  match py_lt (key y) (key x) with
  | Ok b => b
  | Raise _ => false
  end.

(** The last of the elements of [l] that no element of [l] exceeds: an
    element is chosen when every element after it is smaller. *)
Fixpoint latest {A : Type} (key : A → StrOrVersion) (l : list A) : option A :=
  match l with
  | [] => None
  | x :: l' => if forallb (fun y => older key y x) l' then Some x
               else latest key l'
  end.

End PyValues.

(** ** class TcLibraryReference *)

Module TcLibraryReference.
Section Defs.
Context `{PackagingVersion}.

Record t : Type := __init__ {
  title : string;
  version : StrOrVersion;
  company : string;
}.

Definition is_any_version (self : t) : bool :=
  match version self with
  | VStr s => String.eqb s "*"
  | VVer _ => false
  end.

Definition invalid_library_string (full_name : string) : exception :=
  TcLibraryException ("Invalid library string: " +:+ dquote +:+ full_name +:+ dquote).

(** Whatever is raised inside the [try] (no match: [res] is [None]; the
    version text does not parse) is raised again as [TcLibraryException]. *)
Definition parse_string (full_name : string)
  : result (string * StrOrVersion * string) :=
  match _RE_LIBRARY_REF full_name with
  | None => Raise (invalid_library_string full_name)
  | Some (title, version, company) =>
      if String.eqb version "*" then Ok (title, VStr version, company)
      else
        match version_parse version with
        | Some v => Ok (title, VVer v, company)
        | None => Raise (invalid_library_string full_name)
        end
  end.

Definition from_string (full_name : string) : result t :=
  '(title, version, company) ← parse_string full_name;
  Ok (__init__ title version company).

Definition mismatch : exception :=
  TcLibraryException "Library references do not have matching title and company".

Definition select_latest (references : list t) : result (option t) :=
  match references with
  | [] => Ok None
  | [r] => Ok (Some r)
  | r0 :: _ =>
      if existsb
           (fun ref => negb (String.eqb (title ref) (title r0))
                       || negb (String.eqb (company ref) (company r0)))
           references
      then Raise mismatch
      else
        s ← sorted version references;
        match last s with
        | Some r => Ok (Some r)
        | None => Raise IndexError
        end
  end.

Definition __str__ (self : t) : string :=
  title self +:+ ", " +:+ py_str (version self) +:+ " (" +:+ company self +:+ ")".

(** [class_name] is [self.__class__.__name__]. *)
Definition __repr__ (class_name : string) (self : t) : string :=
  class_name +:+ "(" +:+ dquote +:+ title self +:+ dquote +:+ ", "
  +:+ dquote +:+ py_str (version self) +:+ dquote +:+ ", "
  +:+ dquote +:+ company self +:+ dquote +:+ ")".

(** [other] is a reference, so the [isinstance] test holds. *)
Definition __eq__ (self other : t) : bool :=
  (py_eq (version self) (version other)
   || is_any_version self
   || is_any_version other)
  && String.eqb (lower (title self)) (lower (title other))
  && String.eqb (lower (company self)) (lower (company other)).

(** The version test comes first and may raise; the two tests after it
    cannot. *)
Definition __gt__ (self other : t) : result bool :=
  newer ← (if is_any_version self then Ok true
           else py_gt (version self) (version other));
  Ok (newer
      && String.eqb (lower (title self)) (lower (title other))
      && String.eqb (lower (company self)) (lower (company other))).

Definition __ge__ (self other : t) : result bool :=
  greater ← __gt__ self other;
  Ok (greater || __eq__ self other).

(** *** Words of the specification *)

(** The version is a parsed [Version]. *)
Definition numeric (r : t) : bool :=
  match version r with
  | VVer _ => true
  | VStr _ => false
  end.

(** A valid reference: its version is the wildcard or a parsed version. *)
Definition valid (r : t) : bool := is_any_version r || numeric r.

(** The same title and the same company, character by character. *)
Definition same_library (a b : t) : bool :=
  String.eqb (title a) (title b) && String.eqb (company a) (company b).

Definition all_same_library (l : list t) : bool :=
  forallb (fun a => forallb (same_library a) l) l.

(** Both versions are parsed and the first is the greater. *)
Definition numerically_greater (x y : StrOrVersion) : bool :=
  match x, y with
  | VVer a, VVer b => match version_cmp a b with Gt => true | _ => false end
  | _, _ => false
  end.

(** None of the sequences that delimit the parts of a rendered reference. *)
Definition delimiter_free (s : string) : bool :=
  negb (contains ", " s) && negb (contains " (" s) && negb (contains ")" s).

End Defs.
End TcLibraryReference.

(** ** Paths and the file system *)

(** A [pathlib.Path] is the list of its components; [str] joins them with
    the separator of the POSIX flavour. *)
Module Path.

Definition t : Type := list string.

(** [path / name]. *)
Definition truediv (path : t) (name : string) : t := path ++ [name].

(** [path.parent]. *)
Definition parent (path : t) : t := removelast path.

Definition __str__ (path : t) : string := String.concat "/" path.

End Path.

(** What the code asks of the file system and of [xml.etree.ElementTree]:
    - [resolve p]: [p.resolve()], the absolute form of [p];
    - [is_dir p], [exists_ p]: [p.is_dir()], [p.exists()];
    - [browsercache_name p]: [ElementTree.parse(p).getroot().attrib["Name"]],
      [None] when this raises;
    - [plcproj_text p]: the texts of [Title], [ProjectVersion] and [Company]
      found under a [PropertyGroup] of the project file [p], [None] when
      parsing or a lookup raises (an element that is there without text
      would give Python's [None] for a field annotated [str]: such a file
      is outside this record);
    - [glob_browsercache p]: [p.glob("**/browsercache")]. *)
Record FileSystem : Type := {
  resolve : Path.t → Path.t;
  is_dir : Path.t → bool;
  exists_ : Path.t → bool;
  browsercache_name : Path.t → option string;
  plcproj_text : Path.t → option (string * string * string);
  glob_browsercache : Path.t → list Path.t;
}.

(** ** class UniquePath *)

Module UniquePath.

(** Modelled from the spec: [tcclitools/uniquepath.py] is not among the
    sources. The spec gives a process-wide registry keyed by the resolved
    absolute path, with a check and an insert at construction: a path that
    is already bound fails with [DuplicatePathError], any other path is
    bound. The registry is the state that every construction threads.
    The spec says nothing of what the class does with [_allowed_types],
    nor of a binding being released, and neither is modelled. *)
Definition __init__ (fs : FileSystem) (registry : gset Path.t) (path : Path.t)
  : gset Path.t * result unit :=
  let key := resolve fs path in
  if decide (key ∈ registry) then (registry, Raise DuplicatePathError)
  else ({[ key ]} ∪ registry, Ok tt).

End UniquePath.

(** ** class TcLibrary *)

Module TcLibrary.
Section Defs.
Context `{PackagingVersion}.

(** A library is a reference with a path: [bound] is the resolved path
    that [UniquePath] registered for it, [path] is the path it was
    constructed from (what the folder branch assigns to [self.path]). *)
Record t : Type := {
  reference : TcLibraryReference.t;
  path : Path.t;
  bound : Path.t;
}.

Definition missing_browsercache (path : Path.t) : exception :=
  FileNotFoundError
    ("Missing browsercache file in directory '" +:+ Path.__str__ path +:+ "'").

Definition invalid_browsercache (path_browsercache : Path.t) : exception :=
  TcLibraryException
    ("Invalid browsercache file: " +:+ dquote
     +:+ Path.__str__ path_browsercache +:+ dquote).

Definition not_a_valid_library (path : Path.t) : exception :=
  TcLibraryException
    ("Not a valid library: " +:+ dquote +:+ Path.__str__ path +:+ dquote).

(** The fields read from a repository folder. *)
Definition read_folder (fs : FileSystem) (path : Path.t)
  : result (string * StrOrVersion * string) :=
  let path_browsercache := Path.truediv path "browsercache" in
  if negb (exists_ fs path_browsercache) then Raise (missing_browsercache path)
  else
    match browsercache_name fs path_browsercache with
    | None => Raise (invalid_browsercache path_browsercache)
    | Some full_name =>
        match TcLibraryReference.parse_string full_name with
        | Ok fields => Ok fields
        | Raise _ => Raise (invalid_browsercache path_browsercache)
        end
    end.

(** The fields read from a [.plcproj] file. *)
Definition read_plcproj (fs : FileSystem) (path : Path.t)
  : result (string * StrOrVersion * string) :=
  match plcproj_text fs path with
  | None => Raise (not_a_valid_library path)
  | Some (title, version, company) =>
      match version_parse version with
      | Some v => Ok (title, VVer v, company)
      | None => Raise (not_a_valid_library path)
      end
  end.

(** [TcLibrary(path)], from the registry before the call to the registry
    after it and the instance or the exception. *)
Definition __init__ (fs : FileSystem) (registry : gset Path.t) (path : Path.t)
  : gset Path.t * result t :=
  match UniquePath.__init__ fs registry path with
  | (registry', Raise e) => (registry', Raise e)
  | (registry', Ok _) =>
      (registry',
       '(title, version, company) ←
         (if is_dir fs path then read_folder fs path else read_plcproj fs path);
       Ok {| reference := TcLibraryReference.__init__ title version company;
             path := path;
             bound := resolve fs path |})
  end.

Definition as_reference (self : t) : TcLibraryReference.t :=
  TcLibraryReference.__init__
    (TcLibraryReference.title (reference self))
    (TcLibraryReference.version (reference self))
    (TcLibraryReference.company (reference self)).

(** The loop of [get_library_repository] over the files found. *)
Fixpoint libraries_of (fs : FileSystem) (registry : gset Path.t)
  (found : list Path.t) : gset Path.t * result (list t) :=
  match found with
  | [] => (registry, Ok [])
  | p :: found' =>
      match __init__ fs registry (Path.parent p) with
      | (registry', Raise e) => (registry', Raise e)
      | (registry', Ok lib) =>
          match libraries_of fs registry' found' with
          | (registry'', Raise e) => (registry'', Raise e)
          | (registry'', Ok libs) => (registry'', Ok (lib :: libs))
          end
      end
  end.

Definition get_library_repository (fs : FileSystem) (registry : gset Path.t)
  (tc_path : Path.t) : gset Path.t * result (list t) :=
  if negb (exists_ fs tc_path)
  then (registry,
        Raise (FileNotFoundError
                 ("Path '" +:+ Path.__str__ tc_path +:+ "' does not exist!")))
  else libraries_of fs registry (glob_browsercache fs tc_path).

(** The libraries alive after a run of constructions from the empty
    registry: each step is one call of [TcLibrary(path)], on whatever the
    file system holds at that time; a call that returns adds its instance. *)
Inductive reachable : gset Path.t → list t → Prop :=
| reachable_start : reachable ∅ []
| reachable_new fs registry live path registry' lib :
    reachable registry live →
    __init__ fs registry path = (registry', Ok lib) →
    reachable registry' (lib :: live)
| reachable_fail fs registry live path registry' e :
    reachable registry live →
    __init__ fs registry path = (registry', Raise e) →
    reachable registry' live.

End Defs.
End TcLibrary.

(** ** Release versions

    The versions of [packaging.version] that are a release and nothing
    else (no epoch, pre-, post-, dev- or local part): dotted numbers such
    as ["3.3.3.0"], the form of every TwinCAT library version. *)

Module Release.

(** The first number of the release and the numbers after it. *)
Definition t : Type := (N * list N)%type.

Definition segments (v : t) : list N := v.1 :: v.2.

Definition is_digit (c : ascii) : bool :=
  let n := nat_of_ascii c in (48 <=? n) && (n <=? 57).

Definition decimal (n : N) : string := NilEmpty.string_of_uint (N.to_uint n).

Fixpoint dotted (l : list N) : string :=
  match l with
  | [] => EmptyString
  | n :: l' => "." +:+ decimal n +:+ dotted l'
  end.

(** [str(v)]: the numbers joined by dots. *)
Definition str (v : t) : string := decimal v.1 +:+ dotted v.2.

(** The text before the first dot, and the texts between the dots after
    it. *)
Fixpoint split_dot (s : string) : string * list string :=
  match s with
  | EmptyString => (EmptyString, [])
  | String c s' =>
      let '(h, l) := split_dot s' in
      if Ascii.eqb c "." then (EmptyString, h :: l) else (String c h, l)
  end.

(** One number: one digit or more. *)
Definition parse_segment (s : string) : option N :=
  match s with
  | EmptyString => None
  | String _ _ => N.of_uint <$> NilEmpty.uint_of_string s
  end.

(** [version.parse(s)] on release versions. *)
Definition parse (s : string) : option t :=
  let '(h, l) := split_dot s in
  n ← parse_segment h;
  ns ← mapM parse_segment l;
  Some (n, ns).

(** The key of a release drops its trailing zeros. *)
Fixpoint strip_zeros (l : list N) : list N :=
  match l with
  | [] => []
  | n :: l' =>
      match strip_zeros l' with
      | [] => if N.eqb n 0 then [] else [n]
      | r => n :: r
      end
  end.

(** Comparison of tuples of numbers. *)
Fixpoint tuple_cmp (a b : list N) : comparison :=
  match a, b with
  | [], [] => Eq
  | [], _ :: _ => Lt
  | _ :: _, [] => Gt
  | x :: a', y :: b' =>
      match N.compare x y with
      | Eq => tuple_cmp a' b'
      | c => c
      end
  end.

Definition cmp (a b : t) : comparison :=
  tuple_cmp (strip_zeros (segments a)) (strip_zeros (segments b)).

End Release.

(** * Facts *)

(** Appending to a text that starts with a known character computes. *)
#[local] Arguments String.append !_ _ / : simpl nomatch.

(** ** Text *)

Section TextFacts.
Implicit Types s p a b c d g r : string.

Lemma append_nil_r s : s +:+ EmptyString = s.
Proof. induction s as [|x s IH]; simpl; [done | by rewrite IH]. Qed.

Lemma append_assoc a b c : (a +:+ b) +:+ c = a +:+ b +:+ c.
Proof. induction a as [|x a IH]; simpl; [done | by rewrite IH]. Qed.

Lemma length_append a b :
  String.length (a +:+ b) = String.length a + String.length b.
Proof. induction a as [|x a IH]; simpl; [done | by rewrite IH]. Qed.

(** Two ways of cutting one text differ by a piece in the middle. *)
Lemma append_eq_append a b c d :
  a +:+ b = c +:+ d →
  ∃ l, (c = a +:+ l ∧ b = l +:+ d) ∨ (a = c +:+ l ∧ d = l +:+ b).
Proof.
  revert c. induction a as [|x a IH]; intros c E; simpl in E.
  - exists c. by left.
  - destruct c as [|y c]; simpl in E.
    + exists (String x a). right. by rewrite <- E.
    + injection E as -> E. destruct (IH _ E) as [l [[-> ->]|[-> ->]]];
        exists l; [by left | by right].
Qed.

Lemma append_eq_length a b c d :
  a +:+ b = c +:+ d → String.length a = String.length c → a = c ∧ b = d.
Proof.
  revert c. induction a as [|x a IH]; intros [|y c] E L; simpl in *; try done.
  injection E as -> E. injection L as L. by destruct (IH _ E L) as [-> ->].
Qed.

Lemma string_forall_app P a b :
  string_forall P (a +:+ b) = string_forall P a && string_forall P b.
Proof.
  induction a as [|x a IH]; simpl; [done |].
  by rewrite IH, andb_assoc.
Qed.

Lemma string_forall_impl (P Q : ascii → bool) s :
  (∀ x, P x = true → Q x = true) →
  string_forall P s = true → string_forall Q s = true.
Proof.
  intros PQ. induction s as [|x s IH]; simpl; [done |].
  rewrite !andb_true_iff. intros [Hx Hs]. split; auto.
Qed.

Lemma startswith_spec p s : startswith p s = true ↔ ∃ r, s = p +:+ r.
Proof.
  revert s. induction p as [|x p IH]; intros s; simpl.
  - split; [intros _; by exists s | done].
  - destruct s as [|y s]; [split; [done | by intros [r ?]] |].
    rewrite andb_true_iff, Ascii.eqb_eq, IH. split.
    + intros [-> [r ->]]. by exists r.
    + intros [r E]. injection E as -> ->. split; [done | by exists r].
Qed.

Lemma contains_spec p s : contains p s = true ↔ ∃ a b, s = a +:+ p +:+ b.
Proof.
  induction s as [|y s IH]; simpl.
  - rewrite orb_false_r, startswith_spec. split.
    + intros [r E]. by exists EmptyString, r.
    + intros [[|x a] [b E]]; [by exists b | done].
  - rewrite orb_true_iff, startswith_spec, IH. split.
    + intros [[r E]|[a [b E]]].
      * by exists EmptyString, r.
      * exists (String y a), b. simpl. by rewrite E.
    + intros [[|x a] [b E]]; simpl in E.
      * left. by exists b.
      * right. injection E as -> ->. by exists a, b.
Qed.

(** Every character is one of the 256. *)
Lemma all_ascii (x : ascii) : In x (map ascii_of_nat (seq 0 256)).
Proof.
  rewrite <- (ascii_nat_embedding x). apply in_map, in_seq.
  pose proof (nat_ascii_bounded x). lia.
Qed.

(** Lower-casing sends two characters to one exactly when they are the
    same letter: by the table of all pairs of characters. *)
Lemma lower_ascii_match (x y : ascii) :
  Ascii.eqb (lower_ascii x) (lower_ascii y) = spec_same_letter x y.
Proof.
  assert (forallb
            (fun x => forallb
               (fun y => Bool.eqb (Ascii.eqb (lower_ascii x) (lower_ascii y))
                                  (spec_same_letter x y))
               (map ascii_of_nat (seq 0 256)))
            (map ascii_of_nat (seq 0 256)) = true) as T
    by (vm_compute; reflexivity).
  rewrite forallb_forall in T. specialize (T x (all_ascii x)).
  rewrite forallb_forall in T. specialize (T y (all_ascii y)).
  by apply Bool.eqb_prop in T.
Qed.

(** Two texts have one lower-casing exactly when they match without regard
    to case. *)
Lemma lower_match s p : lower s = lower p ↔ spec_match_ignoring_case s p = true.
Proof.
  revert p. induction s as [|x s IH]; intros [|y p]; simpl; try done.
  rewrite andb_true_iff, <- lower_ascii_match, Ascii.eqb_eq, <- IH.
  split; [by intros [= -> ->] | by intros [-> ->]].
Qed.

End TextFacts.

(** ** The matcher against the pattern read as a relation *)

Section RegexFacts.
Context {A : Type}.
Implicit Types (s g r : string) (k : string → option A).

Lemma lit_spec p s r : lit p s = Some r ↔ s = p +:+ r.
Proof.
  revert s. induction p as [|x p IH]; intros s; simpl.
  - split; [by intros [= ->] | by intros ->].
  - destruct s as [|y s]; [done |].
    destruct (Ascii.eqb_spec x y) as [->|N].
    + rewrite IH. split; [by intros -> | by intros [= ->]].
    + split; [done | intros [= -> _]; done].
Qed.

Lemma lit_append p r : lit p (p +:+ r) = Some r.
Proof. by apply lit_spec. Qed.

(** No way of cutting the text lets the rest of the pattern match when
    the group fails. *)
Lemma dotstar_none s k :
  dotstar s k = None →
  ∀ g r, s = g +:+ r → single_line g = true → k r = None.
Proof.
  induction s as [|x s IH]; simpl; intros E g r Hs Hg.
  - destruct g; [|done]. simpl in Hs. subst r.
    by destruct (k EmptyString).
  - destruct g as [|y g]; simpl in Hs.
    + subst r. destruct (Ascii.eqb x newline).
      * by destruct (k (String x s)).
      * destruct (dotstar s k) as [[? ?]|]; [done |].
        by destruct (k (String x s)).
    + injection Hs as <- ->. simpl in Hg.
      apply andb_true_iff in Hg as [Hx Hg].
      destruct (Ascii.eqb x newline); [done |].
      destruct (dotstar (g +:+ r) k) as [[? ?]|] eqn:E'; [done |].
      by eapply IH.
Qed.

(** What the group captures is a line-break free prefix after which the
    rest of the pattern matches. *)
Lemma dotstar_sound s k g (a : A) :
  dotstar s k = Some (g, a) →
  ∃ r, s = g +:+ r ∧ single_line g = true ∧ k r = Some a.
Proof.
  revert g. induction s as [|x s IH]; simpl; intros g E.
  - destruct (k EmptyString) as [a'|] eqn:K; [|done].
    injection E as <- <-. by exists EmptyString.
  - destruct (Ascii.eqb x newline) eqn:X.
    + destruct (k (String x s)) as [a'|] eqn:K; [|done].
      injection E as <- <-. by exists (String x s).
    + destruct (dotstar s k) as [[g' a']|] eqn:E'.
      * injection E as <- <-. destruct (IH _ eq_refl) as [r [-> [Hg K]]].
        exists r. simpl. unfold single_line in *. simpl. by rewrite X, Hg.
      * destruct (k (String x s)) as [a'|] eqn:K; [|done].
        injection E as <- <-. by exists (String x s).
Qed.

(** The group is greedy: no longer prefix would do. *)
Lemma dotstar_longest s k g (a : A) :
  dotstar s k = Some (g, a) →
  ∀ g' r', s = g' +:+ r' → single_line g' = true →
           String.length g < String.length g' → k r' = None.
Proof.
  revert g. induction s as [|x s IH]; simpl; intros g E g' r' Hs Hg' L.
  - destruct g'; [simpl in L; lia | done].
  - destruct g' as [|y g']; [simpl in L; lia |].
    simpl in Hs. injection Hs as <- ->.
    unfold single_line in Hg'. simpl in Hg'.
    apply andb_true_iff in Hg' as [Hx Hg'].
    destruct (Ascii.eqb x newline); [done |].
    destruct (dotstar (g' +:+ r') k) as [[g0 a0]|] eqn:E'.
    + injection E as <- <-. eapply IH; [done | done | done |].
      simpl in L. lia.
    + by eapply dotstar_none.
Qed.

(** A way of cutting the text that no longer one beats is the one the
    matcher finds. *)
Lemma dotstar_unique s k g r (a : A) :
  s = g +:+ r → single_line g = true → k r = Some a →
  (∀ g' r', s = g' +:+ r' → single_line g' = true →
            String.length g < String.length g' → k r' = None) →
  dotstar s k = Some (g, a).
Proof.
  intros Hs Hg K Hmax.
  destruct (dotstar s k) as [[g0 a0]|] eqn:E.
  - destruct (dotstar_sound _ _ _ _ E) as [r0 [Hs0 [Hg0 K0]]].
    destruct (lt_eq_lt_dec (String.length g) (String.length g0)) as [[L|L]|L].
    + rewrite (Hmax _ _ Hs0 Hg0 L) in K0. done.
    + rewrite Hs in Hs0. destruct (append_eq_length _ _ _ _ Hs0 L) as [-> ->].
      congruence.
    + rewrite (dotstar_longest _ _ _ _ E _ _ Hs Hg L) in K. done.
  - rewrite (dotstar_none _ _ E _ _ Hs Hg) in K. done.
Qed.

End RegexFacts.

Lemma dotstar_some {A : Type} s (k : string → option A) g r :
  s = g +:+ r → single_line g = true → is_Some (k r) → is_Some (dotstar s k).
Proof.
  intros Hs Hg [a K]. destruct (dotstar s k) eqn:E; [done |].
  rewrite (dotstar_none _ _ E _ _ Hs Hg) in K. done.
Qed.

Lemma RE_LIBRARY_REF_sound full_name title version company :
  _RE_LIBRARY_REF full_name = Some (title, version, company) →
  matches full_name title version company.
Proof.
  unfold _RE_LIBRARY_REF.
  destruct (dotstar full_name after_title) as [[g1 [g2 [g3 rest]]]|] eqn:E1;
    [|done].
  intros [= -> -> ->].
  apply dotstar_sound in E1 as [r1 [-> [H1 K1]]].
  unfold after_title in K1.
  destruct (lit ", " r1) as [s2|] eqn:L1; simpl in K1; [|done].
  apply lit_spec in L1 as ->.
  apply dotstar_sound in K1 as [r2 [-> [H2 K2]]].
  unfold after_version in K2.
  destruct (lit " (" r2) as [s3|] eqn:L2; simpl in K2; [|done].
  apply lit_spec in L2 as ->.
  apply dotstar_sound in K2 as [r3 [-> [H3 K3]]].
  apply lit_spec in K3 as ->.
  repeat split; try done. by exists rest.
Qed.

Lemma RE_LIBRARY_REF_complete full_name title version company :
  matches full_name title version company →
  is_Some (_RE_LIBRARY_REF full_name).
Proof.
  intros (H1 & H2 & H3 & rest & ->).
  assert (is_Some (dotstar
    (title +:+ ", " +:+ version +:+ " (" +:+ company +:+ ")" +:+ rest)
    after_title)) as [[g1 [g2 [g3 r]]] E].
  { eapply dotstar_some; [reflexivity | done |].
    unfold after_title. simpl.
    eapply dotstar_some; [reflexivity | done |].
    unfold after_version. simpl.
    eapply dotstar_some; [reflexivity | done |].
    unfold after_company. simpl. done. }
  unfold _RE_LIBRARY_REF. by rewrite E.
Qed.

Lemma RE_LIBRARY_REF_none full_name :
  _RE_LIBRARY_REF full_name = None
  ↔ ¬ ∃ title version company, matches full_name title version company.
Proof.
  split.
  - intros E (t & v & c & M).
    apply RE_LIBRARY_REF_complete in M as [? M]. congruence.
  - intros N. destruct (_RE_LIBRARY_REF full_name) as [[[t v] c]|] eqn:E;
      [|done].
    destruct N. exists t, v, c. by apply RE_LIBRARY_REF_sound.
Qed.

(** ** Release versions satisfy the laws of [packaging.version] *)

Module ReleaseFacts.
Import Release.

Lemma tuple_cmp_refl a : tuple_cmp a a = Eq.
Proof. induction a as [|x a IH]; simpl; [done |]. by rewrite N.compare_refl. Qed.

Lemma tuple_cmp_opp a b : tuple_cmp b a = CompOpp (tuple_cmp a b).
Proof.
  revert b. induction a as [|x a IH]; intros [|y b]; simpl; try done.
  rewrite (N.compare_antisym x y). destruct (x ?= y)%N; simpl; auto.
Qed.

Lemma tuple_cmp_trans a b c :
  tuple_cmp a b ≠ Gt → tuple_cmp b c ≠ Gt → tuple_cmp a c ≠ Gt.
Proof.
  revert b c. induction a as [|x a IH]; intros [|y b] [|z c]; simpl; try done.
  destruct (x ?= y)%N eqn:XY; [| |done]; destruct (y ?= z)%N eqn:YZ;
    try done; intros AB BC.
  - apply N.compare_eq_iff in XY as ->. rewrite YZ. eauto.
  - apply N.compare_eq_iff in XY as ->. by rewrite YZ.
  - apply N.compare_eq_iff in YZ as <-. by rewrite XY.
  - apply N.compare_lt_iff in XY, YZ.
    assert ((x ?= z)%N = Lt) as ->; [|done].
    apply N.compare_lt_iff. by apply N.lt_trans with y.
Qed.

Lemma cmp_refl v : cmp v v = Eq.
Proof. apply tuple_cmp_refl. Qed.

Lemma cmp_opp a b : cmp b a = CompOpp (cmp a b).
Proof. apply tuple_cmp_opp. Qed.

Lemma cmp_trans a b c : cmp a b ≠ Gt → cmp b c ≠ Gt → cmp a c ≠ Gt.
Proof. apply tuple_cmp_trans. Qed.

Lemma uint_digits d : string_forall is_digit (NilEmpty.string_of_uint d) = true.
Proof. induction d; simpl; [done | by rewrite IHd..]. Qed.

Lemma decimal_digits n : string_forall is_digit (decimal n) = true.
Proof. apply uint_digits. Qed.

Lemma decimal_nonempty n : decimal n ≠ EmptyString.
Proof.
  unfold decimal. intros E.
  pose proof (NilEmpty.usu (N.to_uint n)) as U. rewrite E in U. simpl in U.
  injection U as U. pose proof (Unsigned.of_to n) as R.
  rewrite <- U in R. simpl in R. subst n. done.
Qed.

Lemma parse_segment_decimal n : parse_segment (decimal n) = Some n.
Proof.
  pose proof (decimal_nonempty n) as NE. unfold parse_segment.
  destruct (decimal n) as [|c s] eqn:E; [done |].
  rewrite <- E. unfold decimal. rewrite NilEmpty.usu. simpl.
  by rewrite Unsigned.of_to.
Qed.

Lemma is_digit_not_dot c : is_digit c = true → Ascii.eqb c "." = false.
Proof.
  intros D. destruct (Ascii.eqb_spec c ".") as [->|]; [|done].
  by vm_compute in D.
Qed.

Lemma is_digit_pep440 c : is_digit c = true → pep440_char c = true.
Proof. unfold is_digit, pep440_char. simpl. intros ->. done. Qed.

Lemma split_dot_digits d r :
  string_forall is_digit d = true →
  split_dot (d +:+ r) = ((d +:+ (split_dot r).1), (split_dot r).2).
Proof.
  induction d as [|c d IH]; simpl; intros D.
  - by destruct (split_dot r).
  - apply andb_true_iff in D as [Dc D]. rewrite (IH D).
    by rewrite (is_digit_not_dot _ Dc).
Qed.

Lemma split_dot_dotted d l :
  string_forall is_digit d = true →
  split_dot (d +:+ dotted l) = (d, decimal <$> l).
Proof.
  revert d. induction l as [|n l IH]; intros d D; simpl.
  - rewrite split_dot_digits by done. simpl. by rewrite append_nil_r.
  - rewrite split_dot_digits by done. simpl.
    rewrite (IH _ (decimal_digits n)). simpl. by rewrite append_nil_r.
Qed.

Lemma parse_str v : parse (str v) = Some v.
Proof.
  destruct v as [n l]. unfold parse, str. simpl.
  rewrite (split_dot_dotted _ _ (decimal_digits n)).
  rewrite parse_segment_decimal. simpl.
  rewrite (mapM_fmap_Some parse_segment decimal l parse_segment_decimal).
  done.
Qed.

Lemma dotted_chars l : string_forall pep440_char (dotted l) = true.
Proof.
  induction l as [|n l IH]; simpl; [done |].
  rewrite string_forall_app, IH, andb_true_r.
  eapply string_forall_impl; [apply is_digit_pep440 | apply decimal_digits].
Qed.

Lemma str_chars v :
  str v ≠ EmptyString ∧ string_forall pep440_char (str v) = true.
Proof.
  destruct v as [n l]. unfold str. simpl. split.
  - pose proof (decimal_nonempty n). by destruct (decimal n).
  - rewrite string_forall_app, dotted_chars, andb_true_r.
    eapply string_forall_impl; [apply is_digit_pep440 | apply decimal_digits].
Qed.

Lemma parse_str_eq v : ∃ v', parse (str v) = Some v' ∧ cmp v' v = Eq.
Proof. exists v. split; [apply parse_str | apply cmp_refl]. Qed.

End ReleaseFacts.

(** The release versions as an instance of the interface. *)
#[global] Instance release_versions : PackagingVersion := {|
  Version := Release.t;
  version_parse := Release.parse;
  version_str := Release.str;
  version_cmp := Release.cmp;
  version_cmp_refl := ReleaseFacts.cmp_refl;
  version_cmp_opp := ReleaseFacts.cmp_opp;
  version_cmp_trans := ReleaseFacts.cmp_trans;
  version_str_chars := ReleaseFacts.str_chars;
  version_parse_str := ReleaseFacts.parse_str_eq;
|}.

(** ** Library references *)

Section ReferenceFacts.
Context `{PackagingVersion}.
Import TcLibraryReference.
Implicit Types (a b c r : TcLibraryReference.t) (x y : StrOrVersion).

Lemma numeric_version r : numeric r = true → ∃ v, version r = VVer v.
Proof. unfold numeric. destruct (version r) as [s|v]; [done | by exists v]. Qed.

Lemma is_any_version_spec r : is_any_version r = true ↔ version r = VStr "*".
Proof.
  unfold is_any_version. destruct (version r) as [s|v]; [|done].
  rewrite String.eqb_eq. split; [by intros -> | by intros [= ->]].
Qed.

Lemma valid_cases r :
  valid r = true → version r = VStr "*" ∨ ∃ v, version r = VVer v.
Proof.
  unfold valid. intros [A|N]%orb_true_iff.
  - left. by apply is_any_version_spec.
  - right. by apply numeric_version.
Qed.

(** C1. Two references are equal exactly when their titles match without
    regard to case, their companies match without regard to case, and
    their versions are equal or one of the two is the wildcard ["*"]. The
    match without regard to case is the equality of the lower-cased texts,
    which on ASCII text is the match letter by letter, a capital letter
    matching its small letter and every other character only itself. *)
Theorem reference_eq_iff a b :
  (__eq__ a b = true
   ↔ lower (title a) = lower (title b)
     ∧ lower (company a) = lower (company b)
     ∧ (py_eq (version a) (version b) = true
        ∨ version a = VStr "*" ∨ version b = VStr "*"))
  ∧ (∀ s t : string,
       ascii_text s = true → ascii_text t = true →
       (lower s = lower t ↔ spec_match_ignoring_case s t = true)).
Proof.
  split.
  - rewrite <- !is_any_version_spec. unfold __eq__.
    rewrite !andb_true_iff, !orb_true_iff, !String.eqb_eq. tauto.
  - intros s t _ _. apply lower_match.
Qed.

(** The version test of [__gt__] on valid references. *)
Lemma newer_valid a b :
  valid a = true → valid b = true →
  numeric a && is_any_version b = false →
  (if is_any_version a then Ok true else py_gt (version a) (version b))
  = Ok (is_any_version a || numerically_greater (version a) (version b)).
Proof.
  intros Va Vb Nab. destruct (is_any_version a) eqn:Aa; [done |].
  unfold valid in Va. rewrite Aa in Va. simpl in Va, Nab. rewrite Va in Nab.
  simpl in Nab. unfold valid in Vb. rewrite Nab in Vb. simpl in Vb.
  apply numeric_version in Va as [va ->], Vb as [vb ->]. done.
Qed.

(** C3, as the code has it. For two valid references, unless the first has
    a parsed version and the second the wildcard: with identical title and
    company, [a > b] is true exactly when the version of [a] is the
    wildcard or is numerically greater than that of [b]; [a > b] requires
    title and company to match without regard to case, and is false when
    they differ. *)
Theorem reference_gt_spec a b :
  valid a = true → valid b = true →
  numeric a && is_any_version b = false →
  (title a = title b → company a = company b →
   __gt__ a b
   = Ok (is_any_version a || numerically_greater (version a) (version b)))
  ∧ (__gt__ a b = Ok true →
     lower (title a) = lower (title b) ∧ lower (company a) = lower (company b))
  ∧ (lower (title a) ≠ lower (title b) ∨ lower (company a) ≠ lower (company b) →
     __gt__ a b = Ok false).
Proof.
  intros Va Vb Nab. unfold __gt__. rewrite (newer_valid a b Va Vb Nab). simpl.
  split; [|split].
  - intros -> ->. by rewrite !String.eqb_refl, !andb_true_r.
  - intros [= E]. apply andb_true_iff in E as [E Ec].
    apply andb_true_iff in E as [_ Et].
    by apply String.eqb_eq in Et, Ec.
  - intros D. f_equal. apply not_true_is_false. intros E.
    apply andb_true_iff in E as [E Ec]. apply andb_true_iff in E as [_ Et].
    apply String.eqb_eq in Et, Ec. tauto.
Qed.

(** Whenever [a > b] raises, the first version is parsed and the second is
    a string, or the other way round, and what is raised is [TypeError]. *)
Lemma reference_gt_raises a b e :
  __gt__ a b = Raise e →
  e = TypeError ∧ is_any_version a = false ∧ numeric a = negb (numeric b).
Proof.
  unfold __gt__, numeric. destruct (is_any_version a); [done |].
  destruct (version a), (version b); simpl; try done; by intros [= <-].
Qed.

(** Two elements that differ in title or in company: the list is not of
    one library. *)
Lemma all_same_library_false (l : list TcLibraryReference.t) a b :
  a ∈ l → b ∈ l → title a ≠ title b ∨ company a ≠ company b →
  all_same_library l = false.
Proof.
  intros Ha%list_elem_of_In Hb%list_elem_of_In D.
  apply not_true_is_false. intros S. unfold all_same_library in S.
  rewrite forallb_forall in S. specialize (S _ Ha).
  rewrite forallb_forall in S. specialize (S _ Hb).
  unfold same_library in S. apply andb_true_iff in S as [St Sc].
  apply String.eqb_eq in St, Sc. tauto.
Qed.

(** The guard of [select_latest] compares every element with the first. *)
Lemma select_latest_not_same (l : list TcLibraryReference.t) :
  all_same_library l = false → select_latest l = Raise mismatch.
Proof.
  intros D. destruct l as [|r0 [|r1 l]]; [done | |].
  - unfold all_same_library, same_library in D. simpl in D.
    by rewrite !String.eqb_refl in D.
  - unfold select_latest.
    set (l0 := r0 :: r1 :: l) in *.
    destruct (existsb _ l0) eqn:E; [done |]. exfalso.
    assert (∀ a, a ∈ l0 → title a = title r0 ∧ company a = company r0) as Hall.
    { intros a Ha. apply list_elem_of_In in Ha.
      destruct (String.eqb_spec (title a) (title r0)) as [Et|Nt];
        destruct (String.eqb_spec (company a) (company r0)) as [Ec|Nc];
        try done; exfalso;
        (assert (existsb
           (fun ref => negb (String.eqb (title ref) (title r0))
                       || negb (String.eqb (company ref) (company r0))) l0
           = true) as E'; [|congruence]);
        apply existsb_exists; exists a; (split; [done |]).
      - apply String.eqb_neq in Nc. by rewrite Nc, orb_true_r.
      - apply String.eqb_neq in Nt. by rewrite Nt.
      - apply String.eqb_neq in Nt. by rewrite Nt. }
    assert (all_same_library l0 = true) as S; [|congruence].
    unfold all_same_library. apply forallb_forall. intros a Ha.
    apply forallb_forall. intros b Hb. apply list_elem_of_In in Ha, Hb.
    destruct (Hall a Ha) as [Ta Ca], (Hall b Hb) as [Tb Cb].
    unfold same_library. rewrite Ta, Ca, Tb, Cb. by rewrite !String.eqb_refl.
Qed.

(** C5. [select_latest] raises the mismatch error whenever two elements of
    the list differ in title or in company, compared character by
    character. *)
Theorem select_latest_mismatch (l : list TcLibraryReference.t) a b :
  a ∈ l → b ∈ l → title a ≠ title b ∨ company a ≠ company b →
  select_latest l
  = Raise (TcLibraryException
             "Library references do not have matching title and company").
Proof.
  intros Ha Hb D. apply select_latest_not_same.
  by apply (all_same_library_false l a b).
Qed.

End ReferenceFacts.

(** ** Sorting by a key *)

Section SortFacts.
Context `{PackagingVersion} {A : Type} (key : A → StrOrVersion).
Implicit Types (x y : A) (l s : list A).

Lemma py_lt_kind (k1 k2 : StrOrVersion) :
  same_kind k1 k2 = true ↔ ∃ b, py_lt k1 k2 = Ok b.
Proof.
  destruct k1, k2; simpl; split; try done; try (by intros [b ?]); eauto.
Qed.

Lemma py_lt_raises (k1 k2 : StrOrVersion) e :
  py_lt k1 k2 = Raise e → e = TypeError ∧ same_kind k1 k2 = false.
Proof. destruct k1, k2; simpl; try done; by intros [= <-]. Qed.

(** [x > y] and [y < x] are the same test. *)
Lemma py_gt_lt (k1 k2 : StrOrVersion) : py_gt k1 k2 = py_lt k2 k1.
Proof.
  destruct k1 as [s1|v1], k2 as [s2|v2]; simpl; try done.
  rewrite (version_cmp_opp v1 v2). by destruct (version_cmp v1 v2).
Qed.

Lemma string_ltb_trans (s1 s2 s3 : string) :
  String.ltb s2 s1 = false → String.ltb s3 s2 = false → String.ltb s3 s1 = false.
Proof.
  unfold String.ltb. intros L12 L23.
  assert (String.le s1 s2) as H12.
  { unfold String.le, String.leb. rewrite String.compare_antisym.
    by destruct (s2 ?= s1)%string. }
  assert (String.le s2 s3) as H23.
  { unfold String.le, String.leb. rewrite String.compare_antisym.
    by destruct (s3 ?= s2)%string. }
  pose proof (transitivity H12 H23) as H13.
  unfold String.le, String.leb in H13. rewrite String.compare_antisym in H13.
  by destruct (s3 ?= s1)%string.
Qed.

(** "Not greater" is transitive on keys. *)
Lemma py_gt_false_trans (k1 k2 k3 : StrOrVersion) :
  py_gt k1 k2 = Ok false → py_gt k2 k3 = Ok false → py_gt k1 k3 = Ok false.
Proof.
  destruct k1 as [s1|v1], k2 as [s2|v2], k3 as [s3|v3]; simpl; try done.
  - intros [= L12] [= L23]. f_equal. by eapply string_ltb_trans.
  - intros [= L12] [= L23]. f_equal.
    pose proof (version_cmp_trans v1 v2 v3) as T.
    destruct (version_cmp v1 v2), (version_cmp v2 v3); try done;
      by destruct (version_cmp v1 v3); try done; exfalso; apply T.
Qed.

Lemma insort_perm x l s : insort key x l = Ok s → s ≡ₚ x :: l.
Proof.
  revert s. induction l as [|y l IH]; simpl; intros s E.
  - by injection E as <-.
  - destruct (py_lt (key y) (key x)) as [[|]|]; simpl in E; [| |done].
    + destruct (insort key x l) as [s'|]; simpl in E; [|done].
      injection E as <-. rewrite (IH _ eq_refl). apply Permutation_swap.
    + by injection E as <-.
Qed.

Lemma sorted_perm l s : sorted key l = Ok s → s ≡ₚ l.
Proof.
  revert s. induction l as [|x l IH]; simpl; intros s E.
  - by injection E as <-.
  - destruct (sorted key l) as [s'|]; simpl in E; [|done].
    rewrite (insort_perm _ _ _ E). by rewrite (IH _ eq_refl).
Qed.

Lemma insort_last x l s :
  insort key x l = Ok s →
  last s = if forallb (fun y => older key y x) l then Some x else last l.
Proof.
  revert s. induction l as [|y l IH]; simpl; intros s E.
  - by injection E as <-.
  - unfold older at 1.
    destruct (py_lt (key y) (key x)) as [[|]|]; simpl in E; [| |done].
    + destruct (insort key x l) as [s'|] eqn:E'; simpl in E; [|done].
      injection E as <-. simpl. specialize (IH _ eq_refl).
      pose proof (insort_perm _ _ _ E') as P.
      destruct s' as [|z s']; [by apply Permutation_nil_cons in P |].
      rewrite last_cons_cons, IH.
      destruct l as [|z' l]; [done |]. by rewrite last_cons_cons.
    + by injection E as <-.
Qed.

Lemma forallb_perm (P : A → bool) l s : s ≡ₚ l → forallb P s = forallb P l.
Proof.
  intros Hp. induction Hp; simpl; try congruence.
  by rewrite !andb_assoc, (andb_comm (P y)).
Qed.

Lemma forallb_exists_false (P : A → bool) l :
  forallb P l = false → ∃ y, In y l ∧ P y = false.
Proof.
  induction l as [|x l IH]; simpl; [done |].
  destruct (P x) eqn:Px; simpl.
  - intros [y [Hy Py]]%IH. exists y. auto.
  - intros _. exists x. auto.
Qed.

(** The last element of the sorted list is the latest of the list. *)
Lemma sorted_last l s : sorted key l = Ok s → last s = latest key l.
Proof.
  revert s. induction l as [|x l IH]; simpl; intros s E.
  - by injection E as <-.
  - destruct (sorted key l) as [s'|] eqn:E'; simpl in E; [|done].
    rewrite (insort_last _ _ _ E), (forallb_perm _ _ _ (sorted_perm _ _ E')).
    by rewrite (IH _ eq_refl).
Qed.

Lemma insort_ok x l :
  Forall (fun y => same_kind (key y) (key x) = true) l →
  ∃ s, insort key x l = Ok s.
Proof.
  induction 1 as [|y l K _ [s IH]]; simpl; [eauto |].
  apply py_lt_kind in K as [b ->]. simpl. destruct b; [|eauto].
  rewrite IH. simpl. eauto.
Qed.

Lemma same_kind_trans (k1 k2 k3 : StrOrVersion) :
  same_kind k1 k2 = true → same_kind k2 k3 = true → same_kind k1 k3 = true.
Proof. by destruct k1, k2, k3. Qed.

Lemma same_kind_sym (k1 k2 : StrOrVersion) : same_kind k1 k2 = same_kind k2 k1.
Proof. by destruct k1, k2. Qed.

(** Sorting returns exactly on the lists whose keys are of one kind. *)
Lemma sorted_ok l :
  (∀ x y, x ∈ l → y ∈ l → same_kind (key x) (key y) = true)
  ↔ ∃ s, sorted key l = Ok s.
Proof.
  induction l as [|x l IH]; simpl.
  - split; [eauto | intros _ x y Hx; by apply elem_of_nil in Hx].
  - split.
    + intros K. destruct IH as [[s E] _].
      { intros a b Ha Hb. apply K; by right. }
      rewrite E. simpl. apply insort_ok. apply Forall_forall. intros y Hy.
      rewrite (sorted_perm _ _ E) in Hy. apply K; [by right | by left].
    + intros [s E]. destruct (sorted key l) as [s'|] eqn:E'; simpl in E; [|done].
      destruct IH as [_ K]. specialize (K (ex_intro _ s' eq_refl)).
      assert (∀ y, y ∈ l → same_kind (key y) (key x) = true) as Kx.
      { pose proof (sorted_perm _ _ E') as P.
        destruct s' as [|z s'].
        - apply Permutation_nil_l in P. subst l.
          intros y Hy. by apply elem_of_nil in Hy.
        - simpl in E.
          destruct (py_lt (key z) (key x)) as [b|] eqn:Z; simpl in E; [|done].
          assert (same_kind (key z) (key x) = true) as Kz
            by (apply py_lt_kind; eauto).
          intros y Hy. eapply same_kind_trans; [|exact Kz].
          apply K; [done |]. rewrite <- P. by left. }
      intros a b [->|Ha]%elem_of_cons [->|Hb]%elem_of_cons.
      * by destruct (key x).
      * rewrite same_kind_sym. by apply Kx.
      * by apply Kx.
      * by apply K.
Qed.

Lemma insort_raises x l e : insort key x l = Raise e → e = TypeError.
Proof.
  induction l as [|y l IH]; simpl; [done |].
  destruct (py_lt (key y) (key x)) as [[|]|e'] eqn:L; simpl.
  - destruct (insort key x l); simpl; [done |]. intros [= <-]. by apply IH.
  - done.
  - intros [= <-]. by apply py_lt_raises in L as [-> _].
Qed.

(** Sorting raises nothing but [TypeError]. *)
Lemma sorted_raises l e : sorted key l = Raise e → e = TypeError.
Proof.
  induction l as [|x l IH]; simpl; [done |].
  destruct (sorted key l) as [s|e']; simpl.
  - apply insort_raises.
  - intros [= <-]. by apply IH.
Qed.

(** Keys of two kinds in one list: the sort raises [TypeError]. *)
Lemma sorted_mixed l x y :
  x ∈ l → y ∈ l → same_kind (key x) (key y) = false →
  sorted key l = Raise TypeError.
Proof.
  intros Hx Hy K. destruct (sorted key l) as [s|e] eqn:E.
  - assert (same_kind (key x) (key y) = true); [|congruence].
    by apply (proj2 (sorted_ok l) (ex_intro _ s E)).
  - by rewrite (sorted_raises _ _ E).
Qed.

(** [<] excludes [>]. *)
Lemma py_lt_not_gt (k1 k2 : StrOrVersion) :
  py_lt k1 k2 = Ok true → py_gt k1 k2 = Ok false.
Proof.
  destruct k1 as [s1|v1], k2 as [s2|v2]; simpl; try done.
  - unfold String.ltb. rewrite (String.compare_antisym s1 s2).
    by destruct (s2 ?= s1)%string.
  - by destruct (version_cmp v1 v2).
Qed.

(** The result of the sort is ascending: no element is greater than a
    later one. *)
Lemma insort_ascending x l s :
  StronglySorted (fun a b => py_gt (key a) (key b) = Ok false) l →
  insort key x l = Ok s →
  StronglySorted (fun a b => py_gt (key a) (key b) = Ok false) s.
Proof.
  revert s. induction l as [|y l IH]; simpl; intros s S E.
  - injection E as <-. repeat constructor.
  - apply StronglySorted_inv in S as [S Hy].
    destruct (py_lt (key y) (key x)) as [[|]|] eqn:L; simpl in E; [| |done].
    + destruct (insort key x l) as [s'|] eqn:E'; simpl in E; [|done].
      injection E as <-. constructor; [by apply IH |].
      rewrite (insort_perm _ _ _ E'). constructor; [|done].
      by apply py_lt_not_gt.
    + injection E as <-. constructor; [by constructor |].
      assert (py_gt (key x) (key y) = Ok false) as G by by rewrite py_gt_lt.
      constructor; [done |].
      eapply Forall_impl; [exact Hy |]. simpl. intros z Gz.
      by eapply py_gt_false_trans.
Qed.

Lemma sorted_ascending l s :
  sorted key l = Ok s →
  StronglySorted (fun a b => py_gt (key a) (key b) = Ok false) s.
Proof.
  revert s. induction l as [|x l IH]; simpl; intros s E.
  - injection E as <-. constructor.
  - destruct (sorted key l) as [s'|]; simpl in E; [|done].
    eapply insort_ascending; [|exact E]. by apply IH.
Qed.

(** Where [latest] stands in a list of keys of one kind: nothing before it
    is greater, everything after it is smaller. *)
Lemma latest_spec l :
  l ≠ [] →
  (∀ x y, x ∈ l → y ∈ l → same_kind (key x) (key y) = true) →
  ∃ pre r post,
    l = pre ++ r :: post ∧ latest key l = Some r
    ∧ Forall (fun x => py_gt (key x) (key r) = Ok false) pre
    ∧ Forall (fun x => py_lt (key x) (key r) = Ok true) post.
Proof.
  induction l as [|x l IH]; [done |]. intros _ K. simpl.
  destruct (forallb (fun y => older key y x) l) eqn:F.
  - exists [], x, l. repeat split; [constructor |].
    apply Forall_forall. intros y Hy.
    rewrite forallb_forall in F. apply list_elem_of_In in Hy.
    specialize (F _ Hy). unfold older in F.
    by destruct (py_lt (key y) (key x)) as [[|]|].
  - destruct l as [|x' l']; [done |].
    destruct IH as (pre & r & post & El & L & Hpre & Hpost); [done | |].
    { intros a b Ha Hb. apply K; by right. }
    exists (x :: pre), r, post. rewrite El at 1. repeat split; try done.
    constructor; [|done].
    (* some element after [x] is not smaller than [x] *)
    assert (∃ y, y ∈ x' :: l' ∧ py_gt (key x) (key y) = Ok false)
      as (y & Hy & Lxy).
    { destruct (forallb_exists_false _ _ F) as (y & Hy & O).
      exists y. split; [by apply list_elem_of_In |]. rewrite py_gt_lt.
      unfold older in O. assert (same_kind (key y) (key x) = true) as Ky.
      { apply K; [right; by apply list_elem_of_In | by left]. }
      apply py_lt_kind in Ky as [b Ky]. rewrite Ky in O |- *. by subst b. }
    eapply py_gt_false_trans; [exact Lxy |].
    rewrite El in Hy. apply elem_of_app in Hy as [Hy|Hy].
    + rewrite Forall_forall in Hpre. by apply Hpre.
    + apply elem_of_cons in Hy as [->|Hy].
      * assert (same_kind (key r) (key r) = true) as Kr by by destruct (key r).
        rewrite py_gt_lt. apply py_lt_kind in Kr as [b Kr].
        assert (py_gt (key r) (key r) = Ok b) as G by by rewrite py_gt_lt.
        destruct b; [|done].
        destruct (key r) as [s|v]; simpl in Kr.
        -- injection Kr as Kr. unfold String.ltb in Kr.
           assert ((s ?= s)%string = Eq) as Es.
           { pose proof (String.compare_antisym s s) as Q.
             by destruct (s ?= s)%string. }
           by rewrite Es in Kr.
        -- by rewrite version_cmp_refl in Kr.
      * rewrite Forall_forall in Hpost. specialize (Hpost _ Hy).
        rewrite py_gt_lt.
        destruct (key y) as [s|v], (key r) as [s'|v']; simpl in *; try done.
        -- injection Hpost as Hpost. f_equal. unfold String.ltb in *.
           rewrite String.compare_antisym.
           by destruct (s ?= s')%string.
        -- rewrite (version_cmp_opp v v'). by destruct (version_cmp v v').
Qed.

End SortFacts.

(** ** The latest of a list of references *)

Section LatestFacts.
Context `{PackagingVersion}.
Import TcLibraryReference.
Implicit Types (a b r : TcLibraryReference.t) (l : list TcLibraryReference.t).

(** The test that guards the sort finds nothing on a list of one library. *)
Lemma all_same_library_guard r0 l :
  all_same_library (r0 :: l) = true →
  existsb (fun ref => negb (String.eqb (title ref) (title r0))
                      || negb (String.eqb (company ref) (company r0)))
          (r0 :: l) = false.
Proof.
  intros S. apply not_true_is_false. intros [a [Ha D]]%existsb_exists.
  unfold all_same_library in S. rewrite forallb_forall in S.
  specialize (S _ Ha). rewrite forallb_forall in S.
  specialize (S r0 (or_introl eq_refl)). unfold same_library in S.
  apply andb_true_iff in S as [St Sc]. by rewrite St, Sc in D.
Qed.

(** Versions all parsed, or all the wildcard: keys of one kind. *)
Lemma one_kind l :
  forallb numeric l || forallb is_any_version l = true →
  ∀ a b, a ∈ l → b ∈ l → same_kind (version a) (version b) = true.
Proof.
  intros K a b Ha%list_elem_of_In Hb%list_elem_of_In.
  apply orb_true_iff in K as [K|K]; rewrite forallb_forall in K;
    pose proof (K _ Ha) as Ka; pose proof (K _ Hb) as Kb.
  - apply numeric_version in Ka as [va ->], Kb as [vb ->]. done.
  - apply is_any_version_spec in Ka as ->, Kb as ->. done.
Qed.

(** C2, as the code has it. [select_latest] returns nothing for the empty
    list and the element of a one-element list. For a list of two or more
    references of one title and company whose versions are all parsed or
    all the wildcard, it returns the element [r] with the greatest version,
    the last of them in the list: no element before [r] is greater, every
    element after [r] is smaller; and [r] is the last element of the list
    sorted by version, a rearrangement of the list in ascending order. *)
Theorem select_latest_last_maximum :
  select_latest [] = Ok None
  ∧ (∀ r, select_latest [r] = Ok (Some r))
  ∧ ∀ l, 2 ≤ length l →
         all_same_library l = true →
         forallb numeric l || forallb is_any_version l = true →
         ∃ pre r post,
           l = pre ++ r :: post
           ∧ select_latest l = Ok (Some r)
           ∧ Forall (fun x => py_gt (version x) (version r) = Ok false) pre
           ∧ Forall (fun x => py_lt (version x) (version r) = Ok true) post
           ∧ ∃ s, sorted version l = Ok s ∧ s ≡ₚ l
                  ∧ StronglySorted
                      (fun a b => py_gt (version a) (version b) = Ok false) s
                  ∧ last s = Some r.
Proof.
  split; [done | split; [done |]].
  intros l L S K. pose proof (one_kind l K) as Kind.
  destruct (latest_spec version l) as (pre & r & post & El & La & Hpre & Hpost);
    [intros ->; simpl in L; lia | done |].
  destruct (proj1 (sorted_ok version l) Kind) as [s E].
  pose proof (sorted_last _ _ _ E) as Ls. rewrite La in Ls.
  exists pre, r, post. split; [done |]. split; [|split; [done | split; [done |]]].
  - destruct l as [|r0 [|r1 l']]; [simpl in L; lia | simpl in L; lia |].
    unfold select_latest. rewrite (all_same_library_guard _ _ S).
    rewrite E. simpl. by rewrite Ls.
  - exists s. split; [done |]. split; [by eapply sorted_perm |].
    split; [by eapply sorted_ascending | done].
Qed.

(** A wildcard and a parsed version in one list of one library: the sort
    raises [TypeError]. *)
Lemma select_latest_mixed l a b :
  all_same_library l = true →
  a ∈ l → b ∈ l → is_any_version a = true → numeric b = true →
  select_latest l = Raise TypeError.
Proof.
  intros S Ha Hb Aa Nb.
  assert (same_kind (version a) (version b) = false) as K.
  { apply is_any_version_spec in Aa as ->.
    by apply numeric_version in Nb as [v ->]. }
  pose proof (sorted_mixed version l a b Ha Hb K) as E.
  destruct l as [|r0 [|r1 l']].
  - by apply elem_of_nil in Ha.
  - apply list_elem_of_singleton in Ha as ->.
    apply list_elem_of_singleton in Hb as ->.
    by destruct (version r0).
  - unfold select_latest. rewrite (all_same_library_guard _ _ S).
    by rewrite E.
Qed.

(** With a wildcard in the middle, equality chains two references that
    are not equal. *)
Lemma wildcard_between a b c :
  lower (title a) = lower (title b) → lower (title b) = lower (title c) →
  lower (company a) = lower (company b) →
  lower (company b) = lower (company c) →
  is_any_version b = true → numeric a = true → numeric c = true →
  py_eq (version a) (version c) = false →
  __eq__ a b = true ∧ __eq__ b c = true ∧ __eq__ a c = false.
Proof.
  intros Tab Tbc Cab Cbc Ab Na Nc D. unfold __eq__.
  rewrite Tab, Tbc, Cab, Cbc, Ab, D, !String.eqb_refl, !orb_true_r.
  assert (is_any_version a = false) as ->.
  { unfold is_any_version. by apply numeric_version in Na as [v ->]. }
  assert (is_any_version c = false) as ->.
  { unfold is_any_version. by apply numeric_version in Nc as [v ->]. }
  done.
Qed.

End LatestFacts.

(** ** Parsing and rendering *)

Section TwoCharacters.
Variables p1 p2 : ascii.
Let p : string := String p1 (String p2 EmptyString).

(** A text without the first character of the sequence can be skipped. *)
Lemma contains2_skip a b :
  string_forall (fun ch => negb (Ascii.eqb p1 ch)) a = true →
  contains p (a +:+ b) = contains p b.
Proof.
  induction a as [|x a IH]; simpl; [done |].
  intros [Hx Ha]%andb_true_iff. apply negb_true_iff in Hx.
  rewrite Hx. simpl. auto.
Qed.

(** One more character at the end, other than the second of the sequence,
    adds no occurrence. *)
Lemma contains2_last c y :
  Ascii.eqb p2 y = false →
  contains p (c +:+ String y EmptyString) = contains p c.
Proof.
  intros Hy. induction c as [|z c IH]; simpl.
  - by rewrite andb_false_r.
  - rewrite IH. f_equal. f_equal. destruct c as [|w c]; simpl; [|done].
    by rewrite Hy.
Qed.

(** The sequence found again after a shift: it occurs further on. *)
Lemma shift2 R l x :
  l ≠ EmptyString → p1 ≠ p2 →
  String p1 (String p2 R) = l +:+ String p1 (String p2 x) →
  contains p R = true.
Proof.
  intros Hl Hp E. destruct l as [|a [|b l]]; simpl in E; [done | |].
  - injection E as _ E _. by destruct Hp.
  - injection E as _ _ ->. apply contains_spec. by exists l, x.
Qed.

End TwoCharacters.

Section ParseFacts.
Context `{PackagingVersion}.
Import TcLibraryReference.

(** The matcher on a rendered reference finds the three parts again. *)
Lemma RE_LIBRARY_REF_render t vs c :
  single_line t = true → single_line vs = true → single_line c = true →
  string_forall (fun ch => negb (Ascii.eqb "," ch)) vs = true →
  contains ", " c = false → contains " (" c = false →
  _RE_LIBRARY_REF (t +:+ ", " +:+ vs +:+ " (" +:+ c +:+ ")") = Some (t, vs, c).
Proof.
  intros Ht Hvs Hc Hcomma Hc1 Hc2. unfold _RE_LIBRARY_REF.
  assert (dotstar (c +:+ ")") after_company = Some (c, EmptyString)) as E3.
  { apply dotstar_unique with (r := ")"); [done | done | done |].
    intros g' r' E _ L. unfold after_company.
    destruct (lit ")" r') as [x|] eqn:Lx; [|done]. exfalso.
    apply lit_spec in Lx as ->. apply (f_equal String.length) in E.
    rewrite !length_append in E. simpl in E. lia. }
  assert (dotstar (vs +:+ " (" +:+ c +:+ ")") after_version
          = Some (vs, (c, EmptyString))) as E2.
  { apply dotstar_unique with (r := " (" +:+ c +:+ ")");
      [done | done | exact E3 |].
    intros g' r' E _ L. unfold after_version.
    destruct (lit " (" r') as [x|] eqn:Lx; [|done]. exfalso.
    apply lit_spec in Lx as ->.
    apply append_eq_append in E as [l [[-> E]|[-> E]]];
      rewrite length_append in L.
    - simpl in E. apply shift2 in E; [| |done].
      + rewrite contains2_last in E by done. congruence.
      + intros ->. simpl in L. lia.
    - lia. }
  assert (dotstar (t +:+ ", " +:+ vs +:+ " (" +:+ c +:+ ")") after_title
          = Some (t, (vs, (c, EmptyString)))) as E1.
  { apply dotstar_unique with (r := ", " +:+ vs +:+ " (" +:+ c +:+ ")");
      [done | done | exact E2 |].
    intros g' r' E _ L. unfold after_title.
    destruct (lit ", " r') as [x|] eqn:Lx; [|done]. exfalso.
    apply lit_spec in Lx as ->.
    apply append_eq_append in E as [l [[-> E]|[-> E]]];
      rewrite length_append in L.
    - simpl in E. apply shift2 in E; [| |done].
      + rewrite contains2_skip in E by done. simpl in E.
        change (contains ", " (c +:+ ")") = true) in E.
        rewrite contains2_last in E by done. congruence.
      + intros ->. simpl in L. lia.
    - lia. }
  by rewrite E1.
Qed.

Lemma pep440_not_newline ch :
  pep440_char ch = true → negb (Ascii.eqb ch newline) = true.
Proof.
  intros P. destruct (Ascii.eqb_spec ch newline) as [->|]; [|done].
  by vm_compute in P.
Qed.

Lemma pep440_not_comma ch :
  pep440_char ch = true → negb (Ascii.eqb "," ch) = true.
Proof.
  intros P. destruct (Ascii.eqb_spec "," ch) as [<-|]; [|done].
  by vm_compute in P.
Qed.

Lemma version_str_not_wildcard v : String.eqb (version_str v) "*" = false.
Proof.
  destruct (String.eqb_spec (version_str v) "*") as [E|]; [|done].
  destruct (version_str_chars v) as [_ C]. rewrite E in C. by vm_compute in C.
Qed.

(** What [parse_string] raises, when it raises, and what it returns. *)
Lemma parse_string_cases full_name :
  (∀ e, parse_string full_name = Raise e →
        e = TcLibraryException
              ("Invalid library string: " +:+ dquote +:+ full_name +:+ dquote))
  ∧ ((∃ e, parse_string full_name = Raise e)
     ↔ (¬ ∃ title version company, matches full_name title version company)
       ∨ ∃ title version company,
           _RE_LIBRARY_REF full_name = Some (title, version, company)
           ∧ version ≠ "*" ∧ version_parse version = None)
  ∧ (∀ title ver company,
       parse_string full_name = Ok (title, ver, company) →
       ∃ version,
         _RE_LIBRARY_REF full_name = Some (title, version, company)
         ∧ matches full_name title version company
         ∧ if String.eqb version "*" then ver = VStr "*"
           else ∃ v, version_parse version = Some v ∧ ver = VVer v).
Proof.
  unfold parse_string.
  destruct (_RE_LIBRARY_REF full_name) as [[[t v] c]|] eqn:E.
  - pose proof (RE_LIBRARY_REF_sound _ _ _ _ E) as M.
    destruct (String.eqb_spec v "*") as [->|Nv].
    + split; [done | split; [split |]].
      * by intros [e ?].
      * intros [N|(t' & v' & c' & [= _ <- _] & Nv' & _)]; [|done].
        destruct N. eauto.
      * intros ? ? ? [= <- <- <-]. exists "*". by rewrite String.eqb_refl.
    + destruct (version_parse v) as [p|] eqn:P.
      * split; [done | split; [split |]].
        -- by intros [e ?].
        -- intros [N|(t' & v' & c' & [= _ <- _] & _ & P')]; [|congruence].
           destruct N. eauto.
        -- intros ? ? ? [= <- <- <-]. exists v. apply String.eqb_neq in Nv.
           rewrite Nv. eauto.
      * split; [by intros e [= <-] | split; [split |]].
        -- intros _. right. by exists t, v, c.
        -- eauto.
        -- done.
  - split; [by intros e [= <-] | split; [split |]].
    + intros _. left. by apply RE_LIBRARY_REF_none.
    + eauto.
    + done.
Qed.

(** C6, as the code has it. [str] renders a reference as its title, a
    comma and a space, its version, a space and its company between
    parentheses. For every valid reference whose title and company hold no
    line break, no comma followed by a space and no parenthesis sequence,
    reading the rendered text back gives a reference of the same title and
    company and an equal version, hence equal to the one rendered. *)
Theorem from_string_str_roundtrip (r : TcLibraryReference.t) :
  valid r = true →
  single_line (title r) = true → single_line (company r) = true →
  delimiter_free (title r) = true → delimiter_free (company r) = true →
  __str__ r
  = title r +:+ ", " +:+ py_str (version r) +:+ " (" +:+ company r +:+ ")"
  ∧ ∃ r', from_string (__str__ r) = Ok r'
          ∧ title r' = title r ∧ company r' = company r
          ∧ py_eq (version r') (version r) = true
          ∧ __eq__ r' r = true.
Proof.
  intros V Lt Lc _ Dc. split; [done |].
  unfold delimiter_free in Dc. apply andb_true_iff in Dc as [Dc _].
  apply andb_true_iff in Dc as [Dc1 Dc2]. apply negb_true_iff in Dc1, Dc2.
  destruct r as [t ver c]. simpl in Lt, Lc, Dc1, Dc2.
  destruct (valid_cases _ V) as [E|[v E]]; simpl in E; subst ver.
  - assert (_RE_LIBRARY_REF (__str__ (__init__ t (VStr "*") c))
            = Some (t, "*", c)) as R
      by by apply RE_LIBRARY_REF_render.
    unfold from_string, parse_string. rewrite R. simpl.
    eexists. split; [done |]. simpl. repeat split.
    unfold __eq__. simpl. by rewrite !String.eqb_refl.
  - destruct (version_str_chars v) as [_ C].
    assert (_RE_LIBRARY_REF (__str__ (__init__ t (VVer v) c))
            = Some (t, version_str v, c)) as R.
    { apply RE_LIBRARY_REF_render; try done.
      - eapply string_forall_impl; [apply pep440_not_newline | done].
      - eapply string_forall_impl; [apply pep440_not_comma | done]. }
    unfold from_string, parse_string. rewrite R.
    rewrite version_str_not_wildcard.
    destruct (version_parse_str v) as (v' & -> & Ev). simpl.
    eexists. split; [done |]. simpl. rewrite Ev.
    repeat split. unfold __eq__. simpl. rewrite Ev. simpl.
    by rewrite !String.eqb_refl.
Qed.

End ParseFacts.

(** ** Libraries and their paths *)

Section LibraryFacts.
Context `{PackagingVersion}.
Import TcLibrary.
Implicit Types (fs : FileSystem) (registry : gset Path.t) (path : Path.t).

(** What one construction does to the registry. *)
Lemma init_registry fs registry path registry' res :
  __init__ fs registry path = (registry', res) →
  (resolve fs path ∈ registry ∧ registry' = registry
   ∧ res = Raise DuplicatePathError)
  ∨ ((resolve fs path ∉ registry)
     ∧ registry' = {[ resolve fs path ]} ∪ registry
     ∧ ∀ lib, res = Ok lib → bound lib = resolve fs path).
Proof.
  unfold __init__, UniquePath.__init__.
  destruct (decide (resolve fs path ∈ registry)) as [B|B]; intros [= <- <-].
  - by left.
  - right. repeat split; [done |]. intros lib.
    destruct (if is_dir fs path then _ else _) as [[[t v] c]|e]; simpl;
      [|done].
    by intros [= <-].
Qed.

(** The bound paths of the live libraries are registered, and are all
    different. *)
Lemma reachable_invariant registry (live : list TcLibrary.t) :
  reachable registry live →
  (∀ lib, lib ∈ live → bound lib ∈ registry) ∧ NoDup (bound <$> live).
Proof.
  induction 1 as [|fs registry live path registry' lib _ [IHr IHn] E
                  |fs registry live path registry' e _ [IHr IHn] E].
  - split; [intros lib Hl; by apply elem_of_nil in Hl | constructor].
  - apply init_registry in E as [(_ & _ & E)|(B & -> & Hb)]; [done |].
    specialize (Hb lib eq_refl). split.
    + intros lib' [->|Hl]%elem_of_cons; [set_solver | ].
      specialize (IHr _ Hl). set_solver.
    + rewrite fmap_cons. constructor; [|done]. rewrite Hb.
      intros (lib' & E' & Hl)%list_elem_of_fmap. apply B. rewrite E'. auto.
  - split; [|done]. intros lib Hl. specialize (IHr _ Hl).
    apply init_registry in E as [(_ & -> & _)|(_ & -> & _)]; set_solver.
Qed.

(** A scan of the repository is a run of constructions. *)
Lemma libraries_of_reachable fs found registry (live : list TcLibrary.t)
  registry' res :
  reachable registry live →
  libraries_of fs registry found = (registry', res) →
  ∃ news, reachable registry' (news ++ live)
          ∧ ∀ libs, res = Ok libs → news = rev libs.
Proof.
  revert registry live registry' res.
  induction found as [|p found IH]; simpl; intros registry live registry' res R.
  - intros [= <- <-]. exists []. split; [done |]. by intros libs [= <-].
  - destruct (__init__ fs registry (Path.parent p)) as [r1 [lib|e]] eqn:E.
    + pose proof (reachable_new _ _ _ _ _ _ R E) as R1.
      destruct (libraries_of fs r1 found) as [r2 [libs|e]] eqn:E2;
        intros [= <- <-];
        destruct (IH _ _ _ _ R1 E2) as (news & R2 & Hn).
      * exists (news ++ [lib]). rewrite <- app_assoc. split; [done |].
        intros ? [= <-]. simpl. by rewrite (Hn _ eq_refl).
      * exists (news ++ [lib]). rewrite <- app_assoc. by split.
    + intros [= <- <-]. exists []. split; [|done].
      by eapply reachable_fail.
Qed.

Lemma get_library_repository_reachable fs registry (live : list TcLibrary.t)
  tc_path registry' res :
  reachable registry live →
  get_library_repository fs registry tc_path = (registry', res) →
  ∃ news, reachable registry' (news ++ live)
          ∧ ∀ libs, res = Ok libs → news = rev libs.
Proof.
  unfold get_library_repository. intros R.
  destruct (exists_ fs tc_path); simpl.
  - by apply libraries_of_reachable.
  - intros [= <- <-]. by exists [].
Qed.

(** C7. In every state reached by constructions, a path whose resolved
    form is bound to a live library cannot be constructed again: the
    construction fails with [DuplicatePathError] and leaves the registry as
    it is; and no two live libraries are bound to the same resolved path. *)
Theorem path_unique registry (live : list TcLibrary.t) :
  reachable registry live →
  (∀ fs path lib,
     lib ∈ live → resolve fs path = bound lib →
     __init__ fs registry path = (registry, Raise DuplicatePathError))
  ∧ NoDup (bound <$> live).
Proof.
  intros R. destruct (reachable_invariant _ _ R) as [Hr Hn]. split; [|done].
  intros fs path lib Hl E. unfold __init__, UniquePath.__init__.
  rewrite decide_True; [done |]. rewrite E. auto.
Qed.

(** C8, as the code has it. The constructor of [UniquePath] runs first.
    When it returns, whatever it has done to the registry, a directory
    that holds no file [browsercache] makes the construction fail with
    [FileNotFoundError], and the message names the directory. *)
Theorem missing_browsercache_raises fs registry path registry' :
  UniquePath.__init__ fs registry path = (registry', Ok tt) →
  is_dir fs path = true →
  exists_ fs (Path.truediv path "browsercache") = false →
  __init__ fs registry path
  = (registry',
     Raise (FileNotFoundError
              ("Missing browsercache file in directory '"
               +:+ Path.__str__ path +:+ "'"))).
Proof.
  intros U D E. unfold __init__. rewrite U.
  unfold read_folder. by rewrite D, E.
Qed.

End LibraryFacts.

(** * Release versions at work *)

(** ** Sample references, libraries and file systems *)

Module Samples.

Definition ref (title : string) (version : StrOrVersion) (company : string)
  : TcLibraryReference.t :=
  TcLibraryReference.__init__ title version company.

Definition any : StrOrVersion := VStr "*".
Definition v1_0 : StrOrVersion := VVer (1%N, [0%N]).
Definition v3_3_3_0 : StrOrVersion := VVer (3%N, [3%N; 3%N; 0%N]).
Definition v3_4 : StrOrVersion := VVer (3%N, [4%N]).
Definition v3_4_0_0 : StrOrVersion := VVer (3%N, [4%N; 0%N; 0%N]).

(** A title of two lines. *)
Definition two_lines : string := "A" +:+ String newline "B".

(** A folder of the library repository. *)
Definition folder : Path.t :=
  ["Managed Libraries"; "Beckhoff Automation GmbH"; "Tc2_Standard"; "3.3.3.0"].

(** The folder with its [browsercache] file. *)
Definition fs_installed : FileSystem := {|
  resolve p := p;
  is_dir p := bool_decide (p = folder);
  exists_ p :=
    bool_decide (p = folder)
    || bool_decide (p = Path.truediv folder "browsercache");
  browsercache_name p :=
    if bool_decide (p = Path.truediv folder "browsercache")
    then Some "Tc2_Standard, 3.3.3.0 (Beckhoff Automation GmbH)"
    else None;
  plcproj_text _ := None;
  glob_browsercache _ := [Path.truediv folder "browsercache"];
|}.

(** The same folder once the file is gone. *)
Definition fs_removed : FileSystem := {|
  resolve p := p;
  is_dir p := bool_decide (p = folder);
  exists_ p := bool_decide (p = folder);
  browsercache_name _ := None;
  plcproj_text _ := None;
  glob_browsercache _ := [];
|}.

Definition tc2_standard : TcLibrary.t := {|
  TcLibrary.reference := ref "Tc2_Standard" v3_3_3_0 "Beckhoff Automation GmbH";
  TcLibrary.path := folder;
  TcLibrary.bound := folder;
|}.

End Samples.
Import Samples.

Section Closed.
Import TcLibraryReference.

(** The two examples of equality: a wildcard equals a parsed version, and
    case does not count in title and company. *)
Example wildcard_and_case_equality :
  __eq__ (ref "Tc2_Standard" any "Beckhoff")
         (ref "Tc2_Standard" v3_3_3_0 "Beckhoff") = true
  ∧ __eq__ (ref "tc2_standard" v1_0 "beckhoff")
           (ref "TC2_STANDARD" v1_0 "BECKHOFF") = true.
Proof. split; reflexivity. Qed.

(** Trailing zeros do not count in a release. *)
Example release_trailing_zeros : py_eq v3_4 v3_4_0_0 = true.
Proof. reflexivity. Qed.

(** C4. [parse_string] raises [TcLibraryException], and only it, exactly
    when the text does not match the pattern or the captured version text,
    other than the wildcard, does not parse as a version; when it returns,
    it returns the three captured groups, the version as the wildcard
    string or as the parsed version. The reference string of Tc2_Standard
    gives its title, the version 3.3.3.0 and its company. *)
Theorem parse_string_spec :
  (∀ (PV : PackagingVersion) (full_name : string),
     (∀ e, parse_string full_name = Raise e →
           e = TcLibraryException
                 ("Invalid library string: " +:+ dquote +:+ full_name
                  +:+ dquote))
     ∧ ((∃ e, parse_string full_name = Raise e)
        ↔ (¬ ∃ title version company,
               matches full_name title version company)
          ∨ ∃ title version company,
              _RE_LIBRARY_REF full_name = Some (title, version, company)
              ∧ version ≠ "*" ∧ version_parse version = None)
     ∧ (∀ title ver company,
          parse_string full_name = Ok (title, ver, company) →
          ∃ version,
            _RE_LIBRARY_REF full_name = Some (title, version, company)
            ∧ matches full_name title version company
            ∧ if String.eqb version "*" then ver = VStr "*"
              else ∃ v, version_parse version = Some v ∧ ver = VVer v))
  ∧ parse_string "Tc2_Standard, 3.3.3.0 (Beckhoff Automation GmbH)"
    = Ok ("Tc2_Standard", v3_3_3_0, "Beckhoff Automation GmbH")
  ∧ parse_string "Tc2_Standard, * (Beckhoff Automation GmbH)"
    = Ok ("Tc2_Standard", any, "Beckhoff Automation GmbH").
Proof.
  split; [|split; reflexivity].
  intros PV full_name. apply parse_string_cases.
Qed.

(** C9. Some list of two references of one title and company, one with the
    wildcard and one with a parsed version, makes [select_latest] raise
    [TypeError]: no result, and none of the errors of the library. So does
    every list of one title and company that holds a wildcard and a parsed
    version. *)
Theorem select_latest_type_error :
  (∃ l : list TcLibraryReference.t,
     2 ≤ length l ∧ all_same_library l = true ∧ forallb valid l = true
     ∧ existsb is_any_version l = true ∧ existsb numeric l = true
     ∧ select_latest l = Raise TypeError)
  ∧ (∀ (PV : PackagingVersion) (l : list TcLibraryReference.t) a b,
       all_same_library l = true →
       a ∈ l → b ∈ l → is_any_version a = true → numeric b = true →
       select_latest l = Raise TypeError).
Proof.
  split.
  - exists [ref "Tc2_Standard" any "Beckhoff";
            ref "Tc2_Standard" v3_3_3_0 "Beckhoff"].
    repeat split; simpl; lia.
  - intros PV l a b. apply select_latest_mixed.
Qed.

(** C10. Equality of references is not transitive: with one title and
    company, a wildcard equals two references of different parsed versions
    that are not equal to each other. *)
Theorem reference_eq_not_transitive :
  (∃ a b c : TcLibraryReference.t,
     title a = title b ∧ title b = title c
     ∧ company a = company b ∧ company b = company c
     ∧ is_any_version b = true ∧ numeric a = true ∧ numeric c = true
     ∧ py_eq (version a) (version c) = false
     ∧ __eq__ a b = true ∧ __eq__ b c = true ∧ __eq__ a c = false)
  ∧ ¬ (∀ a b c : TcLibraryReference.t,
         __eq__ a b = true → __eq__ b c = true → __eq__ a c = true)
  ∧ (∀ (PV : PackagingVersion) (a b c : TcLibraryReference.t),
       lower (title a) = lower (title b) → lower (title b) = lower (title c) →
       lower (company a) = lower (company b) →
       lower (company b) = lower (company c) →
       is_any_version b = true → numeric a = true → numeric c = true →
       py_eq (version a) (version c) = false →
       __eq__ a b = true ∧ __eq__ b c = true ∧ __eq__ a c = false).
Proof.
  split; [|split].
  - exists (ref "Tc2_Standard" v3_3_3_0 "Beckhoff"),
           (ref "Tc2_Standard" any "Beckhoff"),
           (ref "Tc2_Standard" v3_4 "Beckhoff").
    repeat split.
  - intros T.
    specialize (T (ref "Tc2_Standard" v3_3_3_0 "Beckhoff")
                  (ref "Tc2_Standard" any "Beckhoff")
                  (ref "Tc2_Standard" v3_4 "Beckhoff") eq_refl eq_refl).
    discriminate T.
  - intros PV a b c. apply wildcard_between.
Qed.

End Closed.

(** ** Counterexamples and instances *)

Section Instances.
Import TcLibraryReference.

(** C2 as written fails: two valid references of one title and company,
    one parsed version and one wildcard, and [select_latest] returns no
    element but raises [TypeError]. *)
Lemma select_latest_mixed_counterexample :
  2 ≤ length [ref "Tc2_Standard" v3_3_3_0 "Beckhoff";
              ref "Tc2_Standard" any "Beckhoff"]
  ∧ all_same_library [ref "Tc2_Standard" v3_3_3_0 "Beckhoff";
                      ref "Tc2_Standard" any "Beckhoff"] = true
  ∧ forallb valid [ref "Tc2_Standard" v3_3_3_0 "Beckhoff";
                   ref "Tc2_Standard" any "Beckhoff"] = true
  ∧ select_latest [ref "Tc2_Standard" v3_3_3_0 "Beckhoff";
                   ref "Tc2_Standard" any "Beckhoff"] = Raise TypeError.
Proof. repeat split. simpl. lia. Qed.

(** Of the two equal versions 3.4 and 3.4.0.0, the later in the list is
    the latest. *)
Example select_latest_tie :
  select_latest [ref "Tc2_Standard" v3_4 "Beckhoff";
                 ref "Tc2_Standard" v3_3_3_0 "Beckhoff";
                 ref "Tc2_Standard" v3_4_0_0 "Beckhoff"]
  = Ok (Some (ref "Tc2_Standard" v3_4_0_0 "Beckhoff"))
  ∧ select_latest [ref "Tc2_Standard" v3_4_0_0 "Beckhoff";
                   ref "Tc2_Standard" v3_3_3_0 "Beckhoff";
                   ref "Tc2_Standard" v3_4 "Beckhoff"]
    = Ok (Some (ref "Tc2_Standard" v3_4 "Beckhoff")).
Proof. split; reflexivity. Qed.

(** C2 at work: three references, the first and the last with the equal
    versions 3.4 and 3.4.0.0. *)
Lemma select_latest_last_maximum_witness :
  ∃ pre r post,
    [ref "Tc2_Standard" v3_4 "Beckhoff";
     ref "Tc2_Standard" v3_3_3_0 "Beckhoff";
     ref "Tc2_Standard" v3_4_0_0 "Beckhoff"] = pre ++ r :: post
    ∧ select_latest
        [ref "Tc2_Standard" v3_4 "Beckhoff";
         ref "Tc2_Standard" v3_3_3_0 "Beckhoff";
         ref "Tc2_Standard" v3_4_0_0 "Beckhoff"] = Ok (Some r)
    ∧ Forall (fun x => py_gt (version x) (version r) = Ok false) pre
    ∧ Forall (fun x => py_lt (version x) (version r) = Ok true) post
    ∧ ∃ s, sorted version
             [ref "Tc2_Standard" v3_4 "Beckhoff";
              ref "Tc2_Standard" v3_3_3_0 "Beckhoff";
              ref "Tc2_Standard" v3_4_0_0 "Beckhoff"] = Ok s
           ∧ s ≡ₚ [ref "Tc2_Standard" v3_4 "Beckhoff";
                   ref "Tc2_Standard" v3_3_3_0 "Beckhoff";
                   ref "Tc2_Standard" v3_4_0_0 "Beckhoff"]
           ∧ StronglySorted
               (fun a b => py_gt (version a) (version b) = Ok false) s
           ∧ last s = Some r.
Proof.
  apply (proj2 (proj2 select_latest_last_maximum)).
  - simpl. lia.
  - reflexivity.
  - reflexivity.
Defined.

(** C3 as written fails: a parsed version against a wildcard raises
    [TypeError], whether titles differ (where the claim says false) or
    agree (where neither side of the claim's equivalence holds). *)
Lemma reference_gt_counterexample :
  valid (ref "A" v1_0 "X") = true ∧ valid (ref "B" any "X") = true
  ∧ lower (title (ref "A" v1_0 "X")) ≠ lower (title (ref "B" any "X"))
  ∧ __gt__ (ref "A" v1_0 "X") (ref "B" any "X") = Raise TypeError
  ∧ __gt__ (ref "A" v1_0 "X") (ref "A" any "X") = Raise TypeError.
Proof. repeat split. discriminate. Qed.

(** C3 at work: 3.4 against 3.3.3.0 of the same library. *)
Lemma reference_gt_spec_witness :
  __gt__ (ref "Tc2_Standard" v3_4 "Beckhoff")
         (ref "Tc2_Standard" v3_3_3_0 "Beckhoff") = Ok true.
Proof.
  apply (proj1 (reference_gt_spec
                  (ref "Tc2_Standard" v3_4 "Beckhoff")
                  (ref "Tc2_Standard" v3_3_3_0 "Beckhoff")
                  eq_refl eq_refl eq_refl)); reflexivity.
Defined.

(** C5 at work: the list of the specification. *)
Lemma select_latest_mismatch_witness :
  select_latest [ref "A" v1_0 "X"; ref "B" v1_0 "X"]
  = Raise (TcLibraryException
             "Library references do not have matching title and company").
Proof.
  apply (select_latest_mismatch _ (ref "A" v1_0 "X") (ref "B" v1_0 "X")).
  - apply list_elem_of_here.
  - apply list_elem_of_further, list_elem_of_here.
  - left. discriminate.
Defined.

(** C6 as written fails: a title of two lines holds none of the
    delimiters, and its rendering is not read back. Nor is a reference
    read back equal when its version is a string other than the
    wildcard. *)
Lemma roundtrip_line_break_counterexample :
  valid (ref two_lines v1_0 "X") = true
  ∧ delimiter_free (title (ref two_lines v1_0 "X")) = true
  ∧ delimiter_free (company (ref two_lines v1_0 "X")) = true
  ∧ from_string (__str__ (ref two_lines v1_0 "X"))
    = Raise (invalid_library_string (__str__ (ref two_lines v1_0 "X")))
  ∧ from_string (__str__ (ref "A" (VStr "1.0") "X")) = Ok (ref "A" v1_0 "X")
  ∧ __eq__ (ref "A" v1_0 "X") (ref "A" (VStr "1.0") "X") = false.
Proof. repeat split. Qed.

(** C6 at work: Tc2_Standard 3.3.3.0. *)
Lemma from_string_str_roundtrip_witness :
  __str__ (ref "Tc2_Standard" v3_3_3_0 "Beckhoff Automation GmbH")
  = "Tc2_Standard, 3.3.3.0 (Beckhoff Automation GmbH)"
  ∧ ∃ r', from_string "Tc2_Standard, 3.3.3.0 (Beckhoff Automation GmbH)" = Ok r'
          ∧ title r' = "Tc2_Standard"
          ∧ company r' = "Beckhoff Automation GmbH"
          ∧ py_eq (version r') v3_3_3_0 = true
          ∧ __eq__ r' (ref "Tc2_Standard" v3_3_3_0 "Beckhoff Automation GmbH")
            = true.
Proof.
  apply (from_string_str_roundtrip
           (ref "Tc2_Standard" v3_3_3_0 "Beckhoff Automation GmbH"));
    reflexivity.
Defined.

(** One construction from the empty registry. *)
Lemma tc2_standard_reachable :
  TcLibrary.reachable ({[ folder ]} ∪ ∅) [tc2_standard].
Proof.
  apply (TcLibrary.reachable_new fs_installed ∅ [] folder).
  - apply TcLibrary.reachable_start.
  - unfold TcLibrary.__init__, UniquePath.__init__.
    rewrite decide_False by set_solver. reflexivity.
Defined.

(** C7 at work: the folder bound to the library that was constructed
    cannot be constructed again. *)
Lemma path_unique_witness :
  TcLibrary.__init__ fs_installed ({[ folder ]} ∪ ∅) folder
  = ({[ folder ]} ∪ ∅, Raise DuplicatePathError)
  ∧ NoDup [folder].
Proof.
  destruct (path_unique _ _ tc2_standard_reachable) as [D N].
  split; [|exact N].
  apply (D fs_installed folder tc2_standard); [by left | reflexivity].
Defined.

(** C8 as written fails: the folder is bound to a live library, its
    [browsercache] is then removed, and the construction fails with
    [DuplicatePathError], not with [FileNotFoundError]. *)
Lemma missing_browsercache_counterexample :
  TcLibrary.__init__ fs_installed ∅ folder = ({[ folder ]} ∪ ∅, Ok tc2_standard)
  ∧ is_dir fs_removed folder = true
  ∧ exists_ fs_removed (Path.truediv folder "browsercache") = false
  ∧ TcLibrary.__init__ fs_removed ({[ folder ]} ∪ ∅) folder
    = ({[ folder ]} ∪ ∅, Raise DuplicatePathError).
Proof.
  split; [|split; [reflexivity | split; [reflexivity |]]];
    unfold TcLibrary.__init__, UniquePath.__init__.
  - rewrite decide_False by set_solver. reflexivity.
  - rewrite decide_True by set_solver. reflexivity.
Qed.

(** C8 at work: the folder without its file, which [UniquePath] accepts. *)
Lemma missing_browsercache_raises_witness :
  UniquePath.__init__ fs_removed ∅ folder = ({[ folder ]} ∪ ∅, Ok tt)
  ∧ TcLibrary.__init__ fs_removed ∅ folder
    = ({[ folder ]} ∪ ∅,
       Raise (FileNotFoundError
                "Missing browsercache file in directory 'Managed Libraries/Beckhoff Automation GmbH/Tc2_Standard/3.3.3.0'")).
Proof.
  assert (UniquePath.__init__ fs_removed ∅ folder = ({[ folder ]} ∪ ∅, Ok tt))
    as U.
  { unfold UniquePath.__init__. rewrite decide_False by set_solver.
    reflexivity. }
  split; [exact U |].
  apply (missing_browsercache_raises fs_removed ∅ folder _ U); reflexivity.
Defined.

(** C1 at work: the two examples of equality, through the wildcard and
    through the case of the letters, and two references that differ, in
    the version and in one letter of the title. *)
Lemma reference_eq_iff_witness :
  __eq__ (ref "Tc2_Standard" any "Beckhoff")
         (ref "Tc2_Standard" v3_3_3_0 "Beckhoff") = true
  ∧ __eq__ (ref "tc2_standard" v1_0 "beckhoff")
           (ref "TC2_STANDARD" v1_0 "BECKHOFF") = true
  ∧ __eq__ (ref "Tc2_Standard" v3_3_3_0 "Beckhoff")
           (ref "Tc2_Standard" v3_4 "Beckhoff") = false
  ∧ __eq__ (ref "Tc2_Standard" any "Beckhoff")
           (ref "Tc3_Standard" any "Beckhoff") = false.
Proof.
  pose proof (fun a b => proj1 (reference_eq_iff a b)) as Q.
  pose proof (proj2 (reference_eq_iff (ref "" any "") (ref "" any ""))) as L.
  split; [|split; [|split]].
  - apply Q. split; [reflexivity | split; [reflexivity |]].
    right. left. reflexivity.
  - apply Q. split; [|split].
    + apply L; reflexivity.
    + apply L; reflexivity.
    + left. reflexivity.
  - apply not_true_iff_false. intros (_ & _ & [E|[E|E]])%Q; discriminate E.
  - apply not_true_iff_false. intros (E & _)%Q.
    apply L in E; [discriminate E | reflexivity | reflexivity].
Defined.

End Instances.

(** * Further properties of the code *)

(** ** Equality and order of references *)

Section OrderFacts.
Context `{PackagingVersion}.
Import TcLibraryReference.
Implicit Types (a b c : TcLibraryReference.t) (x y z : StrOrVersion).

Lemma version_cmp_eq_sym (u v : Version) :
  version_cmp u v = Eq → version_cmp v u = Eq.
Proof. intros E. by rewrite version_cmp_opp, E. Qed.

Lemma version_cmp_eq_trans (u v w : Version) :
  version_cmp u v = Eq → version_cmp v w = Eq → version_cmp u w = Eq.
Proof.
  intros E1 E2.
  assert (version_cmp u w ≠ Gt) as N1.
  { apply (version_cmp_trans u v w); congruence. }
  assert (version_cmp w u ≠ Gt) as N2.
  { apply (version_cmp_trans w v u);
      [rewrite (version_cmp_eq_sym _ _ E2) | rewrite (version_cmp_eq_sym _ _ E1)];
      done. }
  rewrite (version_cmp_opp u w) in N2.
  by destruct (version_cmp u w).
Qed.

Lemma version_cmp_gt_trans (u v w : Version) :
  version_cmp u v = Gt → version_cmp v w = Gt → version_cmp u w = Gt.
Proof.
  intros G1 G2.
  assert (version_cmp v u ≠ Gt) as L1 by by rewrite version_cmp_opp, G1.
  assert (version_cmp w v ≠ Gt) as L2 by by rewrite version_cmp_opp, G2.
  pose proof (version_cmp_trans w v u L2 L1) as L3.
  rewrite (version_cmp_opp u w) in L3.
  destruct (version_cmp u w) eqn:E; [|by destruct L3|done].
  (* [u] and [w] equal: then [u] is not greater than [v] *)
  exfalso. apply (version_cmp_trans u w v); [congruence | done | done].
Qed.

Lemma py_eq_refl x : py_eq x x = true.
Proof.
  destruct x as [s|v]; simpl; [apply String.eqb_refl |].
  by rewrite version_cmp_refl.
Qed.

Lemma py_eq_sym x y : py_eq x y = py_eq y x.
Proof.
  destruct x as [s|u], y as [t|v]; simpl; try done.
  - apply String.eqb_sym.
  - rewrite (version_cmp_opp u v). by destruct (version_cmp u v).
Qed.

Lemma py_eq_trans x y z : py_eq x y = true → py_eq y z = true → py_eq x z = true.
Proof.
  destruct x as [s|u], y as [t|v], z as [r|w]; simpl; try done.
  - intros ->%String.eqb_eq ->%String.eqb_eq. apply String.eqb_refl.
  - intros E1 E2.
    destruct (version_cmp u v) eqn:C1; [|done..].
    destruct (version_cmp v w) eqn:C2; [|done..].
    by rewrite (version_cmp_eq_trans _ _ _ C1 C2).
Qed.

(** Equality of references, test by test. *)
Lemma eq_true_iff a b :
  __eq__ a b = true
  ↔ lower (title a) = lower (title b)
    ∧ lower (company a) = lower (company b)
    ∧ (py_eq (version a) (version b) = true
       ∨ is_any_version a = true ∨ is_any_version b = true).
Proof.
  unfold __eq__. rewrite !andb_true_iff, !orb_true_iff, !String.eqb_eq.
  tauto.
Qed.

(** X1. Equality of references is reflexive and symmetric. *)
Theorem reference_eq_refl_sym :
  (∀ a, __eq__ a a = true) ∧ (∀ a b, __eq__ a b = __eq__ b a).
Proof.
  split.
  - intros a. unfold __eq__. by rewrite py_eq_refl, !String.eqb_refl.
  - intros a b. unfold __eq__.
    rewrite (py_eq_sym (version a) (version b)).
    rewrite (String.eqb_sym (lower (title a))).
    rewrite (String.eqb_sym (lower (company a))).
    by destruct (py_eq (version b) (version a)), (is_any_version a),
      (is_any_version b).
Qed.

(** X2. Equality chains through a reference that is not the wildcard:
    when [a == b] and [b == c] and the version of [b] is not the wildcard,
    then [a == c]. *)
Theorem reference_eq_trans_middle a b c :
  is_any_version b = false →
  __eq__ a b = true → __eq__ b c = true → __eq__ a c = true.
Proof.
  intros Nb. rewrite !eq_true_iff. rewrite Nb.
  intros (Tab & Cab & Vab) (Tbc & Cbc & Vbc).
  split; [congruence | split; [congruence |]].
  destruct Vab as [Vab|[Aa|?]]; [|auto|done].
  destruct Vbc as [Vbc|[?|Ac]]; [|done|auto].
  left. by eapply py_eq_trans.
Qed.

(** X3. [a > b] and [a >= b] raise in the same case and raise nothing but
    [TypeError]: the version of [a] is not the wildcard and one of the two
    versions is a string while the other is parsed. In every other case
    [a >= b] is [a > b or a == b]. *)
Theorem comparison_raises_iff a b :
  (__gt__ a b = Raise TypeError
   ↔ is_any_version a = false ∧ same_kind (version a) (version b) = false)
  ∧ (∀ e, __gt__ a b = Raise e → e = TypeError)
  ∧ (__ge__ a b = Raise TypeError ↔ __gt__ a b = Raise TypeError)
  ∧ (∀ e, __ge__ a b = Raise e → e = TypeError)
  ∧ (∀ g, __gt__ a b = Ok g → __ge__ a b = Ok (g || __eq__ a b)).
Proof.
  unfold __ge__, __gt__.
  destruct (is_any_version a); simpl.
  - repeat split; try done; try (by intros [? ?]). by intros g [= <-].
  - destruct (version a) as [s|u], (version b) as [t|v]; simpl;
      repeat split; try done; try (by intros [? ?]);
      try (by intros ? [= <-]).
Qed.

(** X4. A wildcard is greater than, equal to, and at least every reference
    of its title and company, whatever the version of that reference: also
    another wildcard, and itself. *)
Theorem wildcard_above_all a b :
  is_any_version a = true →
  lower (title a) = lower (title b) → lower (company a) = lower (company b) →
  __gt__ a b = Ok true ∧ __eq__ a b = true ∧ __ge__ a b = Ok true.
Proof.
  intros Aa T C. unfold __ge__, __gt__, __eq__.
  rewrite Aa, T, C, !String.eqb_refl, orb_true_r. simpl. done.
Qed.

(** X5. Of two references with parsed versions and matching title and
    company, exactly one of [a > b], [a == b] and [b > a] holds, and
    [a >= b] holds exactly when [b > a] does not. *)
Theorem reference_gt_trichotomy a b :
  numeric a = true → numeric b = true →
  lower (title a) = lower (title b) → lower (company a) = lower (company b) →
  ((__gt__ a b = Ok true ∧ __eq__ a b = false ∧ __gt__ b a = Ok false)
   ∨ (__gt__ a b = Ok false ∧ __eq__ a b = true ∧ __gt__ b a = Ok false)
   ∨ (__gt__ a b = Ok false ∧ __eq__ a b = false ∧ __gt__ b a = Ok true))
  ∧ ∃ g, __gt__ b a = Ok g ∧ __ge__ a b = Ok (negb g).
Proof.
  intros [u Eu]%numeric_version [v Ev]%numeric_version T C.
  unfold __ge__, __gt__, __eq__, is_any_version.
  rewrite Eu, Ev, <- T, <- C, !String.eqb_refl. simpl.
  rewrite (version_cmp_opp u v).
  destruct (version_cmp u v); simpl.
  - split; [right; left; done | by eexists].
  - split; [right; right; done | by eexists].
  - split; [left; done | by eexists].
Qed.

(** X6. On references with parsed versions, [>] is transitive. *)
Theorem reference_gt_trans a b c :
  numeric a = true → numeric b = true → numeric c = true →
  __gt__ a b = Ok true → __gt__ b c = Ok true → __gt__ a c = Ok true.
Proof.
  intros [u Eu]%numeric_version [v Ev]%numeric_version [w Ew]%numeric_version.
  unfold __gt__, is_any_version. rewrite Eu, Ev, Ew. simpl.
  intros [= G1] [= G2]. f_equal.
  apply andb_true_iff in G1 as [G1 Cab]. apply andb_true_iff in G1 as [G1 Tab].
  apply andb_true_iff in G2 as [G2 Cbc]. apply andb_true_iff in G2 as [G2 Tbc].
  apply String.eqb_eq in Cab, Tab, Cbc, Tbc.
  rewrite Tab, Tbc, Cab, Cbc, !String.eqb_refl, !andb_true_r.
  destruct (version_cmp u v) eqn:C1; try done.
  destruct (version_cmp v w) eqn:C2; try done.
  by rewrite (version_cmp_gt_trans _ _ _ C1 C2).
Qed.

End OrderFacts.

(** ** What the pattern captures *)

Section CaptureFacts.
Context `{PackagingVersion}.
Import TcLibraryReference.

Lemma after_company_some c rest :
  single_line c = true →
  is_Some (dotstar (c +:+ ")" +:+ rest) after_company).
Proof. intros Hc. by eapply dotstar_some. Qed.

Lemma after_version_some v c rest :
  single_line v = true → single_line c = true →
  is_Some (dotstar (v +:+ " (" +:+ c +:+ ")" +:+ rest) after_version).
Proof.
  intros Hv Hc. eapply dotstar_some; [reflexivity | done |].
  by apply after_company_some.
Qed.

Lemma after_title_some t v c rest :
  single_line t = true → single_line v = true → single_line c = true →
  is_Some (dotstar (t +:+ ", " +:+ v +:+ " (" +:+ c +:+ ")" +:+ rest)
                   after_title).
Proof.
  intros Ht Hv Hc. eapply dotstar_some; [reflexivity | done |].
  by apply after_version_some.
Qed.

(** The captured groups against any other way of cutting the text. *)
Lemma captures_longest full_name t v c t' v' c' :
  matches full_name t v c →
  _RE_LIBRARY_REF full_name = Some (t', v', c') →
  String.length t ≤ String.length t'
  ∧ (String.length t = String.length t' →
     t' = t ∧ String.length v ≤ String.length v'
     ∧ (String.length v = String.length v' →
        v' = v ∧ String.length c ≤ String.length c')).
Proof.
  intros (Ht & Hv & Hc & rest & ->). unfold _RE_LIBRARY_REF.
  destruct (dotstar _ after_title) as [[g1 [g2 [g3 rem]]]|] eqn:E1; [|done].
  intros [= -> -> ->]. split.
  { destruct (le_lt_dec (String.length t) (String.length t')) as [L|L];
      [done |]. exfalso.
    pose proof (dotstar_longest _ _ _ _ E1 t _ eq_refl Ht L) as N.
    destruct (after_version_some v c rest Hv Hc) as [x Hx].
    change (dotstar (v +:+ " (" +:+ c +:+ ")" +:+ rest) after_version = None)
      in N. congruence. }
  intros Lt. apply dotstar_sound in E1 as (r1 & E & _ & K1).
  apply append_eq_length in E as [-> <-]; [|done]. split; [done |].
  change (dotstar (v +:+ " (" +:+ c +:+ ")" +:+ rest) after_version
          = Some (v', (c', rem))) in K1.
  split.
  { destruct (le_lt_dec (String.length v) (String.length v')) as [L|L];
      [done |]. exfalso.
    pose proof (dotstar_longest _ _ _ _ K1 v _ eq_refl Hv L) as N.
    destruct (after_company_some c rest Hc) as [x Hx].
    change (dotstar (c +:+ ")" +:+ rest) after_company = None) in N.
    congruence. }
  intros Lv. apply dotstar_sound in K1 as (r2 & E & _ & K2).
  apply append_eq_length in E as [-> <-]; [|done]. split; [done |].
  change (dotstar (c +:+ ")" +:+ rest) after_company = Some (c', rem)) in K2.
  destruct (le_lt_dec (String.length c) (String.length c')) as [L|L];
    [done |]. exfalso.
  pose proof (dotstar_longest _ _ _ _ K2 c _ eq_refl Hc L) as N.
  done.
Qed.

(** X7. The groups are greedy from left to right. Whenever a text can be
    cut into a title, a version and a company along the pattern, the title
    captured is at least as long as that title; when it is that title, the
    version captured is at least as long as that version; and when that is
    the same too, so is the company with respect to the company. *)
Theorem captures_are_longest full_name t v c t' v' c' :
  matches full_name t v c →
  _RE_LIBRARY_REF full_name = Some (t', v', c') →
  String.length t ≤ String.length t'
  ∧ (String.length t = String.length t' →
     t' = t ∧ String.length v ≤ String.length v'
     ∧ (String.length v = String.length v' →
        v' = v ∧ String.length c ≤ String.length c')).
Proof. apply captures_longest. Qed.

(** X8. A rendered reference is read back whatever its title holds, short
    of a line break: commas, spaces and parentheses in the title do no
    harm, nor do closing parentheses in the company. Only a comma followed
    by a space, or a space followed by an opening parenthesis, in the
    company can mislead the pattern. *)
Theorem roundtrip_any_title (r : TcLibraryReference.t) :
  valid r = true →
  single_line (title r) = true → single_line (company r) = true →
  contains ", " (company r) = false → contains " (" (company r) = false →
  ∃ r', from_string (__str__ r) = Ok r'
        ∧ title r' = title r ∧ company r' = company r
        ∧ py_eq (version r') (version r) = true
        ∧ __eq__ r' r = true.
Proof.
  intros V Lt Lc Dc1 Dc2.
  destruct r as [t ver c]. simpl in Lt, Lc, Dc1, Dc2.
  destruct (valid_cases _ V) as [E|[v E]]; simpl in E; subst ver.
  - assert (_RE_LIBRARY_REF (__str__ (__init__ t (VStr "*") c))
            = Some (t, "*", c)) as R
      by by apply RE_LIBRARY_REF_render.
    unfold from_string, parse_string. rewrite R. simpl.
    eexists. split; [done |]. simpl. repeat split.
    unfold __eq__. simpl. by rewrite !String.eqb_refl.
  - destruct (version_str_chars v) as [_ C].
    assert (_RE_LIBRARY_REF (__str__ (__init__ t (VVer v) c))
            = Some (t, version_str v, c)) as R.
    { apply RE_LIBRARY_REF_render; try done.
      - eapply string_forall_impl; [apply pep440_not_newline | done].
      - eapply string_forall_impl; [apply pep440_not_comma | done]. }
    unfold from_string, parse_string. rewrite R.
    rewrite version_str_not_wildcard.
    destruct (version_parse_str v) as (v' & -> & Ev). simpl.
    eexists. split; [done |]. simpl. rewrite Ev.
    repeat split. unfold __eq__. simpl. rewrite Ev. simpl.
    by rewrite !String.eqb_refl.
Qed.

Lemma lower_length s : String.length (lower s) = String.length s.
Proof. induction s as [|x s IH]; simpl; [done | by rewrite IH]. Qed.

(** X9. Equal references need not render alike: a wildcard and a parsed
    version of one title and company are equal, and their renderings, from
    which their hashes are taken, differ. *)
Theorem equal_rendered_apart (a b : TcLibraryReference.t) :
  is_any_version a = true → numeric b = true →
  lower (title a) = lower (title b) → lower (company a) = lower (company b) →
  __eq__ a b = true ∧ __str__ a ≠ __str__ b.
Proof.
  intros Aa Nb T C. split.
  { apply eq_true_iff. auto. }
  apply is_any_version_spec in Aa. apply numeric_version in Nb as [v Ev].
  unfold __str__. rewrite Aa, Ev. simpl py_str. intros E.
  apply append_eq_length in E as [_ E].
  2:{ by rewrite <- (lower_length (title a)), T, lower_length. }
  simpl in E. injection E as E.
  destruct (version_str_chars v) as [NE Ch].
  destruct (version_str v) as [|x s]; [done |]. simpl in E. injection E as <- _.
  by vm_compute in Ch.
Qed.

End CaptureFacts.

(** ** What [select_latest] returns and raises *)

Section SelectFacts.
Context `{PackagingVersion}.
Import TcLibraryReference.
Implicit Types (a b r : TcLibraryReference.t) (l : list TcLibraryReference.t).

Lemma string_ltb_irrefl (s : string) : String.ltb s s = false.
Proof.
  unfold String.ltb. pose proof (String.compare_antisym s s) as Q.
  by destruct (s ?= s)%string.
Qed.

Lemma py_gt_irrefl (x : StrOrVersion) : py_gt x x = Ok false.
Proof.
  destruct x as [s|v]; simpl; [by rewrite string_ltb_irrefl |].
  by rewrite version_cmp_refl.
Qed.

(** Neither greater than the other: equal. *)
Lemma py_gt_antisym (x y : StrOrVersion) :
  py_gt x y = Ok false → py_gt y x = Ok false → py_eq x y = true.
Proof.
  destruct x as [s|u], y as [t|v]; simpl; try done.
  - unfold String.ltb. intros [= L1] [= L2]. apply String.eqb_eq.
    apply String.compare_eq_iff. rewrite String.compare_antisym in L1.
    by destruct (s ?= t)%string.
  - rewrite (version_cmp_opp u v). by destruct (version_cmp u v).
Qed.

(** What the sort of a list of two or more references of one library
    leaves to [select_latest]. *)
Lemma select_latest_sorted r0 r1 l :
  all_same_library (r0 :: r1 :: l) = true →
  select_latest (r0 :: r1 :: l)
  = s ← sorted version (r0 :: r1 :: l);
    match last s with
    | Some r => Ok (Some r)
    | None => Raise IndexError
    end.
Proof.
  intros S. unfold select_latest. by rewrite (all_same_library_guard _ _ S).
Qed.

(** The outcomes of [select_latest], list by list. *)
Lemma select_latest_cases l :
  (select_latest l = Ok None ↔ l = [])
  ∧ (∀ r, select_latest l = Ok (Some r) → r ∈ l)
  ∧ (∀ e, select_latest l = Raise e →
          2 ≤ length l
          ∧ (e = TcLibraryException
                   "Library references do not have matching title and company"
             ∧ all_same_library l = false
             ∨ e = TypeError ∧ all_same_library l = true)).
Proof.
  destruct (all_same_library l) eqn:S.
  - destruct l as [|r0 [|r1 l']].
    + split; [done |]. split; [intros r [=] | intros e [=]].
    + split; [split; intros [=] |].
      split; [intros r [= <-]; by left | intros e [=]].
    + rewrite (select_latest_sorted _ _ _ S).
      destruct (sorted version (r0 :: r1 :: l')) as [s|e] eqn:E; simpl.
      * pose proof (sorted_perm _ _ _ E) as P.
        destruct (last s) as [r|] eqn:La.
        -- split; [split; intros [=] |].
           split; [|intros e [=]]. intros r' [= <-]. rewrite <- P.
           apply last_Some in La as [s' ->]. set_solver.
        -- apply last_None in La. subst s. by apply Permutation_nil_cons in P.
      * split; [split; intros [=] |]. split; [intros r [=] |].
        intros e' [= <-]. split; [simpl; lia |]. right.
        split; [|done]. by eapply sorted_raises.
  - rewrite (select_latest_not_same l S).
    destruct l as [|r0 [|r1 l']].
    + done.
    + unfold all_same_library, same_library in S. simpl in S.
      by rewrite !String.eqb_refl in S.
    + split; [split; intros [=] |]. split; [intros r [=] |].
      intros e [= <-]. split; [simpl; lia |]. by left.
Qed.

(** X10. [select_latest] returns nothing on the empty list only; what it
    returns is an element of the list; and it raises nothing but the
    mismatch error, on a list of two or more references that are not of one
    title and company, and [TypeError], on a list of two or more that are:
    never [IndexError]. *)
Theorem select_latest_outcomes l :
  (select_latest l = Ok None ↔ l = [])
  ∧ (∀ r, select_latest l = Ok (Some r) → r ∈ l)
  ∧ (∀ e, select_latest l = Raise e →
          2 ≤ length l
          ∧ (e = TcLibraryException
                   "Library references do not have matching title and company"
             ∧ all_same_library l = false
             ∨ e = TypeError ∧ all_same_library l = true)).
Proof. apply select_latest_cases. Qed.

(** X11. For references of one title and company, [select_latest] returns
    exactly when the version fields are all strings or all parsed versions,
    and raises [TypeError] otherwise. *)
Theorem select_latest_returns_iff l :
  all_same_library l = true →
  ((∃ o, select_latest l = Ok o)
   ↔ ∀ a b, a ∈ l → b ∈ l → same_kind (version a) (version b) = true)
  ∧ ((∃ o, select_latest l = Ok o) ∨ select_latest l = Raise TypeError).
Proof.
  intros S. destruct l as [|r0 [|r1 l']].
  - split; [|left; by eexists]. split; [|by eexists].
    intros _ a b Ha. by apply elem_of_nil in Ha.
  - split; [|left; by eexists]. split; [|by eexists].
    intros _ a b ->%list_elem_of_singleton ->%list_elem_of_singleton.
    by destruct (version r0).
  - rewrite (select_latest_sorted _ _ _ S).
    destruct (sorted version (r0 :: r1 :: l')) as [s|e] eqn:E; simpl.
    + pose proof (sorted_perm _ _ _ E) as P.
      destruct (last s) as [r|] eqn:La.
      * split; [|left; by eexists]. split; [|by eexists]. intros _.
        apply sorted_ok. by exists s.
      * apply last_None in La. subst s. by apply Permutation_nil_cons in P.
    + rewrite (sorted_raises _ _ _ E). split; [|by right]. split.
      * by intros [o ?].
      * intros K. apply sorted_ok in K as [s K]. congruence.
Qed.

(** No element exceeds the element returned. *)
Lemma select_latest_max l r :
  select_latest l = Ok (Some r) →
  r ∈ l ∧ ∀ x, x ∈ l → py_gt (version x) (version r) = Ok false.
Proof.
  intros E. split; [by apply (select_latest_cases l) |].
  destruct l as [|r0 [|r1 l']]; [done | |].
  - injection E as <-. intros x ->%list_elem_of_singleton. apply py_gt_irrefl.
  - destruct (all_same_library (r0 :: r1 :: l')) eqn:S.
    2:{ by rewrite (select_latest_not_same _ S) in E. }
    rewrite (select_latest_sorted _ _ _ S) in E.
    destruct (sorted version (r0 :: r1 :: l')) as [s|e] eqn:Es; simpl in E;
      [|done].
    destruct (last s) as [r'|] eqn:La; [|done]. injection E as ->.
    rewrite (sorted_last _ _ _ Es) in La.
    destruct (latest_spec version (r0 :: r1 :: l'))
      as (pre & r' & post & El & La' & Hpre & Hpost);
      [done | apply sorted_ok; by exists s |].
    rewrite La in La'. injection La' as <-.
    intros x Hx. rewrite El in Hx.
    apply elem_of_app in Hx as [Hx|[->|Hx]%elem_of_cons].
    + rewrite Forall_forall in Hpre. by apply Hpre.
    + apply py_gt_irrefl.
    + rewrite Forall_forall in Hpost. by apply py_lt_not_gt, Hpost.
Qed.

(** X12. Whatever [select_latest] returns is a maximum of the list under
    Python's [>] on the version fields: no element is greater. *)
Theorem select_latest_maximum l r :
  select_latest l = Ok (Some r) →
  r ∈ l ∧ ∀ x, x ∈ l → py_gt (version x) (version r) = Ok false.
Proof. apply select_latest_max. Qed.

(** X13. The version selected does not depend on the order of the list:
    what [select_latest] returns on two arrangements of one list has equal
    versions. *)
Theorem select_latest_any_order l l' r r' :
  l ≡ₚ l' →
  select_latest l = Ok (Some r) → select_latest l' = Ok (Some r') →
  py_eq (version r) (version r') = true.
Proof.
  intros P E E'.
  destruct (select_latest_max _ _ E) as [Hr Hmax].
  destruct (select_latest_max _ _ E') as [Hr' Hmax'].
  apply py_gt_antisym.
  - apply Hmax'. by rewrite <- P.
  - apply Hmax. by rewrite P.
Qed.

End SelectFacts.

(** ** What [TcLibrary] returns and raises *)

Section ConstructionFacts.
Context `{PackagingVersion}.
Import TcLibrary.
Implicit Types (fs : FileSystem) (registry : gset Path.t) (path : Path.t).

Lemma from_string_valid full_name (r : TcLibraryReference.t) :
  TcLibraryReference.from_string full_name = Ok r →
  TcLibraryReference.valid r = true.
Proof.
  unfold TcLibraryReference.from_string.
  destruct (TcLibraryReference.parse_string full_name) as [[[t ver] c]|e] eqn:P;
    simpl; [|done].
  intros [= <-].
  destruct (proj2 (proj2 (parse_string_cases full_name)) _ _ _ P)
    as (v & _ & _ & Hv).
  unfold TcLibraryReference.valid, TcLibraryReference.is_any_version,
    TcLibraryReference.numeric. simpl.
  destruct (String.eqb v "*"); [by subst ver |].
  by destruct Hv as (p & _ & ->).
Qed.

(** What a construction that returns has done. *)
Lemma library_init_ok fs registry path registry' (lib : TcLibrary.t) :
  __init__ fs registry path = (registry', Ok lib) →
  (resolve fs path ∉ registry)
  ∧ registry' = {[ resolve fs path ]} ∪ registry
  ∧ TcLibrary.path lib = path ∧ bound lib = resolve fs path
  ∧ TcLibraryReference.valid (reference lib) = true
  ∧ (is_dir fs path = true →
     exists_ fs (Path.truediv path "browsercache") = true
     ∧ ∃ full_name,
         browsercache_name fs (Path.truediv path "browsercache")
         = Some full_name
         ∧ TcLibraryReference.from_string full_name = Ok (reference lib))
  ∧ (is_dir fs path = false →
     TcLibraryReference.numeric (reference lib) = true
     ∧ ∃ version,
         plcproj_text fs path
         = Some (TcLibraryReference.title (reference lib), version,
                 TcLibraryReference.company (reference lib))
         ∧ TcLibraryReference.version (reference lib)
           = from_option VVer (VStr version) (version_parse version)).
Proof.
  unfold __init__, UniquePath.__init__.
  destruct (decide (resolve fs path ∈ registry)) as [B|B]; [done |].
  destruct (is_dir fs path) eqn:D.
  - unfold read_folder.
    destruct (exists_ fs (Path.truediv path "browsercache")) eqn:E; simpl;
      [|done].
    destruct (browsercache_name fs (Path.truediv path "browsercache"))
      as [full_name|] eqn:N; simpl; [|done].
    destruct (TcLibraryReference.parse_string full_name) as [[[t v] c]|e] eqn:P;
      simpl; [|done].
    intros [= <- <-]. simpl.
    assert (TcLibraryReference.from_string full_name
            = Ok (TcLibraryReference.__init__ t v c)) as F.
    { unfold TcLibraryReference.from_string. by rewrite P. }
    repeat split; try done.
    + by eapply from_string_valid.
    + by exists full_name.
  - unfold read_plcproj.
    destruct (plcproj_text fs path) as [[[t v] c]|] eqn:X; simpl; [|done].
    destruct (version_parse v) as [p|] eqn:P; simpl; [|done].
    intros [= <- <-]. simpl. repeat split; try done.
    exists v. by rewrite P.
Qed.

(** X14. A library that is constructed was not bound before and is bound
    now; its reference is valid. Constructed from a folder, the folder
    holds a [browsercache] whose name [from_string] reads as the reference
    of the library; constructed from a project file, its version is a
    parsed version, never the wildcard, and its title and company are the
    texts of the file. *)
Theorem library_init_returns fs registry path registry' (lib : TcLibrary.t) :
  __init__ fs registry path = (registry', Ok lib) →
  (resolve fs path ∉ registry)
  ∧ registry' = {[ resolve fs path ]} ∪ registry
  ∧ TcLibrary.path lib = path ∧ bound lib = resolve fs path
  ∧ TcLibraryReference.valid (reference lib) = true
  ∧ (is_dir fs path = true →
     exists_ fs (Path.truediv path "browsercache") = true
     ∧ ∃ full_name,
         browsercache_name fs (Path.truediv path "browsercache")
         = Some full_name
         ∧ TcLibraryReference.from_string full_name = Ok (reference lib))
  ∧ (is_dir fs path = false →
     TcLibraryReference.numeric (reference lib) = true
     ∧ ∃ version,
         plcproj_text fs path
         = Some (TcLibraryReference.title (reference lib), version,
                 TcLibraryReference.company (reference lib))
         ∧ TcLibraryReference.version (reference lib)
           = from_option VVer (VStr version) (version_parse version)).
Proof. apply library_init_ok. Qed.

(** X15. [TcLibrary(path)] raises one of four errors and no other: the
    duplicate path error when the resolved path is bound; for a folder,
    [FileNotFoundError] naming the folder when it holds no [browsercache],
    and the invalid browsercache error naming the file when its name is
    missing or unreadable (the error of [parse_string] is replaced); for
    any other path the invalid library error naming the path. *)
Theorem library_init_raises fs registry path registry' e :
  __init__ fs registry path = (registry', Raise e) →
  (e = DuplicatePathError ∧ resolve fs path ∈ registry)
  ∨ ((resolve fs path ∉ registry)
     ∧ ((is_dir fs path = true
         ∧ exists_ fs (Path.truediv path "browsercache") = false
         ∧ e = FileNotFoundError
                 ("Missing browsercache file in directory '"
                  +:+ Path.__str__ path +:+ "'"))
        ∨ (is_dir fs path = true
           ∧ exists_ fs (Path.truediv path "browsercache") = true
           ∧ (∀ full_name,
                browsercache_name fs (Path.truediv path "browsercache")
                = Some full_name →
                ∃ e', TcLibraryReference.parse_string full_name = Raise e')
           ∧ e = TcLibraryException
                   ("Invalid browsercache file: " +:+ dquote
                    +:+ Path.__str__ (Path.truediv path "browsercache")
                    +:+ dquote))
        ∨ (is_dir fs path = false
           ∧ (∀ t v c, plcproj_text fs path = Some (t, v, c) →
                       version_parse v = None)
           ∧ e = TcLibraryException
                   ("Not a valid library: " +:+ dquote
                    +:+ Path.__str__ path +:+ dquote)))).
Proof.
  unfold __init__, UniquePath.__init__.
  destruct (decide (resolve fs path ∈ registry)) as [B|B].
  { intros [= <- <-]. by left. }
  intros E. right. split; [done |]. revert E.
  destruct (is_dir fs path) eqn:D.
  - unfold read_folder.
    destruct (exists_ fs (Path.truediv path "browsercache")) eqn:E; simpl.
    + destruct (browsercache_name fs (Path.truediv path "browsercache"))
        as [full_name|] eqn:N; simpl.
      * destruct (TcLibraryReference.parse_string full_name)
          as [[[t v] c]|e'] eqn:P; simpl; [done |].
        intros [= <- <-]. right. left. repeat split; try done.
        intros ? [= <-]. by exists e'.
      * intros [= <- <-]. right. left. repeat split; done.
    + intros [= <- <-]. left. done.
  - unfold read_plcproj.
    destruct (plcproj_text fs path) as [[[t v] c]|] eqn:X; simpl.
    + destruct (version_parse v) as [p|] eqn:P; simpl; [done |].
      intros [= <- <-]. right. right. repeat split; try done.
      by intros ? ? ? [= <- <- <-].
    + intros [= <- <-]. right. right. repeat split; done.
Qed.

(** One pass of the loop over the files found. *)
Lemma libraries_of_returns fs found registry registry' (libs : list TcLibrary.t) :
  libraries_of fs registry found = (registry', Ok libs) →
  Forall2 (fun lib p => TcLibrary.path lib = Path.parent p
                        ∧ bound lib = resolve fs (Path.parent p)) libs found
  ∧ NoDup (bound <$> libs)
  ∧ (∀ lib, lib ∈ libs → bound lib ∉ registry)
  ∧ registry' = list_to_set (bound <$> libs) ∪ registry.
Proof.
  revert registry registry' libs.
  induction found as [|p found IH]; simpl; intros registry registry' libs.
  - intros [= <- <-]. repeat split; [constructor | constructor | |].
    + intros lib Hl. by apply elem_of_nil in Hl.
    + simpl. by rewrite (left_id_L ∅ (∪)).
  - destruct (__init__ fs registry (Path.parent p)) as [r1 [lib|e]] eqn:E;
      [|done].
    destruct (libraries_of fs r1 found) as [r2 [libs'|e]] eqn:E'; [|done].
    intros [= <- <-].
    apply library_init_ok in E as (B & -> & Hp & Hb & _).
    destruct (IH _ _ _ E') as (F & N & Hn & ->).
    repeat split.
    + by constructor.
    + rewrite fmap_cons. constructor; [|done].
      intros (lib' & Eb & Hl)%list_elem_of_fmap.
      apply (Hn _ Hl). rewrite <- Eb, Hb.
      apply elem_of_union_l. by apply elem_of_singleton.
    + intros lib' [->|Hl]%elem_of_cons; [by rewrite Hb |].
      intros Hr. apply (Hn _ Hl). by apply elem_of_union_r.
    + rewrite fmap_cons, Hb. simpl. apply set_eq. intros x.
      rewrite !elem_of_union. tauto.
Qed.

(** What a scan that returns has done. *)
Lemma get_library_repository_ok fs registry tc_path registry'
  (libs : list TcLibrary.t) :
  get_library_repository fs registry tc_path = (registry', Ok libs) →
  exists_ fs tc_path = true
  ∧ Forall2 (fun lib p => TcLibrary.path lib = Path.parent p
                          ∧ bound lib = resolve fs (Path.parent p))
            libs (glob_browsercache fs tc_path)
  ∧ NoDup (bound <$> libs)
  ∧ (∀ lib, lib ∈ libs → bound lib ∉ registry)
  ∧ registry' = list_to_set (bound <$> libs) ∪ registry.
Proof.
  unfold get_library_repository.
  destruct (exists_ fs tc_path); simpl; [|done].
  intros E. split; [done |]. by apply libraries_of_returns.
Qed.

(** X16. A scan that returns gives one library for each [browsercache]
    found, in the order found, each constructed from the folder of its
    file; their bound paths are all different, none was bound before the
    scan, and all are bound after it. *)
Theorem get_library_repository_returns fs registry tc_path registry'
  (libs : list TcLibrary.t) :
  get_library_repository fs registry tc_path = (registry', Ok libs) →
  exists_ fs tc_path = true
  ∧ Forall2 (fun lib p => TcLibrary.path lib = Path.parent p
                          ∧ bound lib = resolve fs (Path.parent p))
            libs (glob_browsercache fs tc_path)
  ∧ NoDup (bound <$> libs)
  ∧ (∀ lib, lib ∈ libs → bound lib ∉ registry)
  ∧ registry' = list_to_set (bound <$> libs) ∪ registry.
Proof. apply get_library_repository_ok. Qed.

(** X17. A scan cannot be repeated: after a scan that returned at least one
    library, the same scan of the same files raises the duplicate path
    error and changes nothing. *)
Theorem get_library_repository_twice fs registry tc_path registry'
  (libs : list TcLibrary.t) :
  get_library_repository fs registry tc_path = (registry', Ok libs) →
  libs ≠ [] →
  get_library_repository fs registry' tc_path
  = (registry', Raise DuplicatePathError).
Proof.
  intros E NE.
  apply get_library_repository_ok in E as (X & F & _ & _ & ->).
  unfold get_library_repository. rewrite X. simpl.
  destruct F as [|lib p libs' found [_ Hb] F]; [done |]. simpl.
  unfold __init__, UniquePath.__init__.
  rewrite decide_True; [done |]. simpl. rewrite Hb.
  apply elem_of_union_l, elem_of_union_l. by apply elem_of_singleton.
Qed.

End ConstructionFacts.

(** ** Text around a reference string *)

Section AroundFacts.
Context `{PackagingVersion}.
Import TcLibraryReference.

(** Two texts that can be cut in the same ways give the same groups. *)
Lemma RE_LIBRARY_REF_ext s s' :
  (∀ t v c, matches s t v c ↔ matches s' t v c) →
  _RE_LIBRARY_REF s = _RE_LIBRARY_REF s'.
Proof.
  intros M.
  destruct (_RE_LIBRARY_REF s) as [[[t1 v1] c1]|] eqn:E1.
  - pose proof (RE_LIBRARY_REF_sound _ _ _ _ E1) as M1.
    destruct (RE_LIBRARY_REF_complete s' t1 v1 c1) as [[[t2 v2] c2] E2];
      [by apply M |].
    pose proof (RE_LIBRARY_REF_sound _ _ _ _ E2) as M2.
    destruct (captures_longest s t2 v2 c2 _ _ _ (proj2 (M _ _ _) M2) E1)
      as [Lt1 K1].
    destruct (captures_longest s' t1 v1 c1 _ _ _ (proj1 (M _ _ _) M1) E2)
      as [Lt2 K2].
    destruct K1 as (-> & Lv1 & K1); [lia |].
    destruct K2 as (_ & Lv2 & K2); [done |].
    destruct K1 as (-> & Lc1); [lia |].
    destruct K2 as (_ & Lc2); [done |].
    rewrite E2. do 2 f_equal.
    destruct M1 as (_ & _ & _ & r1 & X1).
    destruct (proj2 (M _ _ _) M2) as (_ & _ & _ & r2 & X2).
    rewrite X1 in X2.
    apply String.app_inj in X2. simpl in X2. injection X2 as X2.
    apply String.app_inj in X2. simpl in X2. injection X2 as X2.
    apply append_eq_length in X2 as [-> _]; [done | lia].
  - destruct (_RE_LIBRARY_REF s') as [[[t2 v2] c2]|] eqn:E2; [|done].
    apply RE_LIBRARY_REF_sound, M, RE_LIBRARY_REF_complete in E2 as [x E2].
    congruence.
Qed.

Lemma matches_app s rest t v c :
  matches s t v c → matches (s +:+ rest) t v c.
Proof.
  intros (Ht & Hv & Hc & r & ->). split; [done |]. split; [done |].
  split; [done |]. exists (r +:+ rest). by rewrite !append_assoc.
Qed.

(** How a cut of [s +:+ rest] along the pattern lies: within [s], or with
    its closing parenthesis beyond [s]. *)
Lemma matches_split s rest t v c :
  matches (s +:+ rest) t v c →
  matches s t v c
  ∨ ∃ l l', l ≠ EmptyString ∧ rest = l +:+ l'
            ∧ t +:+ ", " +:+ v +:+ " (" +:+ c +:+ ")" = s +:+ l.
Proof.
  intros (Ht & Hv & Hc & r & E).
  assert (s +:+ rest = (t +:+ ", " +:+ v +:+ " (" +:+ c +:+ ")") +:+ r) as E'
    by by rewrite E, !append_assoc.
  apply append_eq_append in E' as [l [[Q R]|[-> R]]].
  - destruct l as [|x l].
    + left. split; [done |]. split; [done |]. split; [done |].
      exists EmptyString. rewrite append_nil_r in Q. by rewrite <- Q.
    + right. by exists (String x l), r.
  - left. split; [done |]. split; [done |]. split; [done |].
    exists l. by rewrite !append_assoc.
Qed.

Lemma ends_with s l q ch :
  s +:+ l = q +:+ String ch EmptyString → l ≠ EmptyString →
  ∃ l', l = l' +:+ String ch EmptyString.
Proof.
  intros E NE. apply append_eq_append in E as [m [[-> E]|[-> E]]].
  - by exists m.
  - destruct m as [|x m]; simpl in E.
    + exists EmptyString. by rewrite <- E.
    + injection E as _ E. destruct m; simpl in E; [by subst l | done].
Qed.

Lemma parse_string_same s s' :
  _RE_LIBRARY_REF s' = _RE_LIBRARY_REF s →
  ∀ r, from_string s = Ok r → from_string s' = Ok r.
Proof.
  unfold from_string, parse_string. intros ->.
  destruct (_RE_LIBRARY_REF s) as [[[t v] c]|]; [|done].
  destruct (String.eqb v "*"); [done |]. by destruct (version_parse v).
Qed.

(** X18. Text after the reference string is ignored as long as it holds
    no closing parenthesis: the groups captured are the same, and a text
    that [from_string] reads is read as the same reference with such text
    after it. *)
Theorem trailing_text_ignored full_name rest :
  contains ")" rest = false →
  _RE_LIBRARY_REF (full_name +:+ rest) = _RE_LIBRARY_REF full_name
  ∧ ∀ r, from_string full_name = Ok r → from_string (full_name +:+ rest) = Ok r.
Proof.
  intros C.
  assert (_RE_LIBRARY_REF (full_name +:+ rest) = _RE_LIBRARY_REF full_name) as R.
  { apply RE_LIBRARY_REF_ext. intros t v c. split; [|apply matches_app].
    intros [M|(l & l' & NE & -> & Q)]%matches_split; [done |]. exfalso.
    assert (t +:+ ", " +:+ v +:+ " (" +:+ c +:+ ")"
            = (t +:+ ", " +:+ v +:+ " (" +:+ c) +:+ ")") as A
      by by rewrite !append_assoc.
    rewrite A in Q. symmetry in Q. apply ends_with in Q as [m ->]; [|done].
    assert (contains ")" ((m +:+ ")") +:+ l') = true); [|congruence].
    apply contains_spec. exists m, l'. by rewrite append_assoc. }
  split; [done |]. by apply parse_string_same.
Qed.

(** X19. Only the first line counts: whatever follows a line break changes
    neither the groups captured nor the reference read. *)
Theorem first_line_only full_name rest :
  _RE_LIBRARY_REF (full_name +:+ String newline rest)
  = _RE_LIBRARY_REF full_name
  ∧ ∀ r, from_string full_name = Ok r →
         from_string (full_name +:+ String newline rest) = Ok r.
Proof.
  assert (_RE_LIBRARY_REF (full_name +:+ String newline rest)
          = _RE_LIBRARY_REF full_name) as R.
  { apply RE_LIBRARY_REF_ext. intros t v c. split; [|apply matches_app].
    intros M. pose proof M as (Ht & Hv & Hc & _).
    apply matches_split in M as [M|(l & l' & NE & L & Q)]; [done |]. exfalso.
    destruct l as [|x l]; [done |]. simpl in L. injection L as <- _.
    apply (f_equal single_line) in Q. unfold single_line in Q, Ht, Hv, Hc.
    rewrite !string_forall_app, Ht, Hv, Hc in Q. simpl in Q.
    by rewrite andb_false_r in Q. }
  split; [done |]. by apply parse_string_same.
Qed.

End AroundFacts.

(** ** The further properties at work *)

Section FurtherInstances.
Import TcLibraryReference.

(** The folder is constructed, scanned, and found without its file. *)
Lemma folder_constructed :
  TcLibrary.__init__ fs_installed ∅ folder = ({[ folder ]} ∪ ∅, Ok tc2_standard).
Proof.
  unfold TcLibrary.__init__, UniquePath.__init__.
  rewrite decide_False by set_solver. reflexivity.
Qed.

Lemma folder_scanned :
  TcLibrary.get_library_repository fs_installed ∅ folder
  = ({[ folder ]} ∪ ∅, Ok [tc2_standard]).
Proof.
  assert (TcLibrary.libraries_of fs_installed ∅
            [Path.truediv folder "browsercache"]
          = ({[ folder ]} ∪ ∅, Ok [tc2_standard])) as L.
  { change (TcLibrary.libraries_of fs_installed ∅
              [Path.truediv folder "browsercache"])
      with (match TcLibrary.__init__ fs_installed ∅ folder with
            | (registry', Raise e) => (registry', Raise e)
            | (registry', Ok lib) => (registry', Ok [lib])
            end).
    by rewrite folder_constructed. }
  exact L.
Qed.

Lemma folder_removed :
  TcLibrary.__init__ fs_removed ∅ folder
  = ({[ folder ]} ∪ ∅,
     Raise (TcLibrary.missing_browsercache folder)).
Proof.
  unfold TcLibrary.__init__, UniquePath.__init__.
  rewrite decide_False by set_solver. reflexivity.
Qed.

(** X2 at work: equal through a parsed version, case apart. *)
Lemma reference_eq_trans_middle_witness :
  __eq__ (ref "tc2_standard" v3_4 "beckhoff")
         (ref "Tc2_Standard" any "Beckhoff") = true.
Proof.
  apply (reference_eq_trans_middle
           (ref "tc2_standard" v3_4 "beckhoff")
           (ref "TC2_STANDARD" v3_4_0_0 "BECKHOFF")
           (ref "Tc2_Standard" any "Beckhoff")); reflexivity.
Defined.

(** X4 at work: a wildcard against itself. *)
Lemma wildcard_above_all_witness :
  __gt__ (ref "Tc2_Standard" any "Beckhoff")
         (ref "Tc2_Standard" any "Beckhoff") = Ok true
  ∧ __eq__ (ref "Tc2_Standard" any "Beckhoff")
           (ref "Tc2_Standard" any "Beckhoff") = true
  ∧ __ge__ (ref "Tc2_Standard" any "Beckhoff")
           (ref "Tc2_Standard" any "Beckhoff") = Ok true.
Proof.
  apply (wildcard_above_all (ref "Tc2_Standard" any "Beckhoff")
                            (ref "Tc2_Standard" any "Beckhoff"));
    reflexivity.
Defined.

(** X5 at work: 3.4 against 3.3.3.0. *)
Lemma reference_gt_trichotomy_witness :
  ∃ g, __gt__ (ref "Tc2_Standard" v3_3_3_0 "Beckhoff")
              (ref "Tc2_Standard" v3_4 "Beckhoff") = Ok g
       ∧ __ge__ (ref "Tc2_Standard" v3_4 "Beckhoff")
                (ref "Tc2_Standard" v3_3_3_0 "Beckhoff") = Ok (negb g).
Proof.
  apply (proj2 (reference_gt_trichotomy
                  (ref "Tc2_Standard" v3_4 "Beckhoff")
                  (ref "Tc2_Standard" v3_3_3_0 "Beckhoff")
                  eq_refl eq_refl eq_refl eq_refl)).
Defined.

(** X6 at work: 3.4 over 3.3.3.0 over 1.0. *)
Lemma reference_gt_trans_witness :
  __gt__ (ref "Tc2_Standard" v3_4 "Beckhoff")
         (ref "Tc2_Standard" v1_0 "Beckhoff") = Ok true.
Proof.
  apply (reference_gt_trans
           (ref "Tc2_Standard" v3_4 "Beckhoff")
           (ref "Tc2_Standard" v3_3_3_0 "Beckhoff")
           (ref "Tc2_Standard" v1_0 "Beckhoff")); reflexivity.
Defined.

(** X7 at work: of the two commas of the text, the second ends the
    title. *)
Lemma captures_are_longest_witness :
  String.length "A" ≤ String.length "A, B".
Proof.
  apply (captures_are_longest "A, B, 1.0 (C)" "A" "B, 1.0" "C" "A, B" "1.0" "C").
  - repeat split. by exists EmptyString.
  - reflexivity.
Defined.

(** X8 at work: delimiters in the title, a closing parenthesis in the
    company. *)
Lemma roundtrip_any_title_witness :
  ∃ r', from_string
          (__str__ (ref "Tc2, Standard (beta)" v3_3_3_0 "Beckhoff) GmbH"))
        = Ok r'
        ∧ title r' = "Tc2, Standard (beta)" ∧ company r' = "Beckhoff) GmbH"
        ∧ py_eq (version r') v3_3_3_0 = true
        ∧ __eq__ r' (ref "Tc2, Standard (beta)" v3_3_3_0 "Beckhoff) GmbH")
          = true.
Proof.
  apply (roundtrip_any_title
           (ref "Tc2, Standard (beta)" v3_3_3_0 "Beckhoff) GmbH"));
    reflexivity.
Defined.

(** X9 at work: the wildcard and 3.3.3.0 of Tc2_Standard. *)
Lemma equal_rendered_apart_witness :
  __eq__ (ref "Tc2_Standard" any "Beckhoff")
         (ref "Tc2_Standard" v3_3_3_0 "Beckhoff") = true
  ∧ __str__ (ref "Tc2_Standard" any "Beckhoff")
    ≠ __str__ (ref "Tc2_Standard" v3_3_3_0 "Beckhoff").
Proof.
  apply (equal_rendered_apart (ref "Tc2_Standard" any "Beckhoff")
                              (ref "Tc2_Standard" v3_3_3_0 "Beckhoff"));
    reflexivity.
Defined.

(** X11 at work: versions kept as text are compared as text, and the list
    returns. *)
Lemma select_latest_returns_iff_witness :
  ((∃ o, select_latest [ref "A" (VStr "10.0") "X"; ref "A" (VStr "9.0") "X"]
         = Ok o)
   ↔ ∀ a b, a ∈ [ref "A" (VStr "10.0") "X"; ref "A" (VStr "9.0") "X"] →
            b ∈ [ref "A" (VStr "10.0") "X"; ref "A" (VStr "9.0") "X"] →
            same_kind (version a) (version b) = true)
  ∧ ((∃ o, select_latest [ref "A" (VStr "10.0") "X"; ref "A" (VStr "9.0") "X"]
           = Ok o)
     ∨ select_latest [ref "A" (VStr "10.0") "X"; ref "A" (VStr "9.0") "X"]
       = Raise TypeError).
Proof.
  apply (select_latest_returns_iff
           [ref "A" (VStr "10.0") "X"; ref "A" (VStr "9.0") "X"]).
  reflexivity.
Defined.

(** X12 at work. *)
Lemma select_latest_maximum_witness :
  ref "Tc2_Standard" v3_4 "Beckhoff"
  ∈ [ref "Tc2_Standard" v3_4 "Beckhoff"; ref "Tc2_Standard" v3_3_3_0 "Beckhoff"]
  ∧ ∀ x,
      x ∈ [ref "Tc2_Standard" v3_4 "Beckhoff";
           ref "Tc2_Standard" v3_3_3_0 "Beckhoff"] →
      py_gt (version x) (version (ref "Tc2_Standard" v3_4 "Beckhoff"))
      = Ok false.
Proof.
  apply (select_latest_maximum
           [ref "Tc2_Standard" v3_4 "Beckhoff";
            ref "Tc2_Standard" v3_3_3_0 "Beckhoff"]).
  reflexivity.
Defined.

(** X13 at work: a list of two and its reverse. *)
Lemma select_latest_any_order_witness :
  py_eq v3_4 v3_4_0_0 = true.
Proof.
  apply (select_latest_any_order
           [ref "Tc2_Standard" v3_4_0_0 "Beckhoff";
            ref "Tc2_Standard" v3_4 "Beckhoff"]
           [ref "Tc2_Standard" v3_4 "Beckhoff";
            ref "Tc2_Standard" v3_4_0_0 "Beckhoff"]
           (ref "Tc2_Standard" v3_4 "Beckhoff")
           (ref "Tc2_Standard" v3_4_0_0 "Beckhoff")).
  - apply Permutation_swap.
  - reflexivity.
  - reflexivity.
Defined.

(** X14 at work: the folder of Tc2_Standard. *)
Lemma library_init_returns_witness :
  TcLibrary.bound tc2_standard = folder
  ∧ valid (TcLibrary.reference tc2_standard) = true.
Proof.
  destruct (library_init_returns fs_installed ∅ folder _ tc2_standard
              folder_constructed) as (_ & _ & _ & B & V & _).
  split; [exact B | exact V].
Defined.

(** X15 at work: the folder without its file. *)
Lemma library_init_raises_witness :
  (resolve fs_removed folder ∉ (∅ : gset Path.t))
  ∧ is_dir fs_removed folder = true
  ∧ exists_ fs_removed (Path.truediv folder "browsercache") = false.
Proof.
  destruct (library_init_raises fs_removed ∅ folder _ _ folder_removed)
    as [[E _]|[B [(D & X & _)|[(_ & _ & _ & E)|(_ & _ & E)]]]];
    try discriminate E.
  by repeat split.
Defined.

(** X16 at work: the scan of the folder. *)
Lemma get_library_repository_returns_witness :
  NoDup (TcLibrary.bound <$> [tc2_standard])
  ∧ ({[ folder ]} ∪ ∅ : gset Path.t)
    = list_to_set (TcLibrary.bound <$> [tc2_standard]) ∪ ∅.
Proof.
  destruct (get_library_repository_returns fs_installed ∅ folder _ _
              folder_scanned) as (_ & _ & N & _ & R).
  split; [exact N | exact R].
Defined.

(** X17 at work: the scan of the folder, twice. *)
Lemma get_library_repository_twice_witness :
  TcLibrary.get_library_repository fs_installed ({[ folder ]} ∪ ∅) folder
  = ({[ folder ]} ∪ ∅, Raise DuplicatePathError).
Proof.
  apply (get_library_repository_twice fs_installed ∅ folder _ [tc2_standard]).
  - exact folder_scanned.
  - discriminate.
Defined.

(** X18 at work: a remark after the reference string. *)
Lemma trailing_text_ignored_witness :
  _RE_LIBRARY_REF ("Tc2_Standard, 3.3.3.0 (Beckhoff)" +:+ " [installed]")
  = _RE_LIBRARY_REF "Tc2_Standard, 3.3.3.0 (Beckhoff)"
  ∧ ∀ r, from_string "Tc2_Standard, 3.3.3.0 (Beckhoff)" = Ok r →
         from_string ("Tc2_Standard, 3.3.3.0 (Beckhoff)" +:+ " [installed]")
         = Ok r.
Proof.
  apply (trailing_text_ignored "Tc2_Standard, 3.3.3.0 (Beckhoff)"
                               " [installed]").
  reflexivity.
Defined.

End FurtherInstances.

(** ** Reading back what was read *)

Section RereadFacts.
Context `{PackagingVersion}.
Import TcLibraryReference.

(** A way of cutting the text that no other way exceeds, group by group,
    is what the pattern captures. *)
Lemma RE_LIBRARY_REF_greatest s t v c :
  matches s t v c →
  (∀ t2 v2 c2, matches s t2 v2 c2 →
     String.length t2 ≤ String.length t
     ∧ (String.length t2 = String.length t →
        String.length v2 ≤ String.length v
        ∧ (String.length v2 = String.length v →
           String.length c2 ≤ String.length c))) →
  _RE_LIBRARY_REF s = Some (t, v, c).
Proof.
  intros M G.
  destruct (RE_LIBRARY_REF_complete _ _ _ _ M) as [[[t' v'] c'] E].
  pose proof (RE_LIBRARY_REF_sound _ _ _ _ E) as M'.
  destruct (captures_longest _ _ _ _ _ _ _ M E) as [L1 K1].
  destruct (G _ _ _ M') as [L2 K2].
  destruct K1 as (-> & L3 & K1); [lia |].
  destruct K2 as (L4 & K2); [done |].
  destruct K1 as (-> & L5); [lia |].
  specialize (K2 eq_refl).
  rewrite E. do 2 f_equal.
  destruct M as (_ & _ & _ & r1 & X1), M' as (_ & _ & _ & r2 & X2).
  rewrite X1 in X2.
  apply String.app_inj in X2. simpl in X2. injection X2 as X2.
  apply String.app_inj in X2. simpl in X2. injection X2 as X2.
  apply append_eq_length in X2 as [-> _]; [done | lia].
Qed.

(** A literal of two different characters found again further on. *)
Lemma shift2_cut (p1 p2 : ascii) X l Y :
  p1 ≠ p2 → l ≠ EmptyString →
  String p1 (String p2 X) = l +:+ String p1 (String p2 Y) →
  ∃ l2, l = String p1 (String p2 l2) ∧ X = l2 +:+ String p1 (String p2 Y).
Proof.
  intros Hp Hl E. destruct l as [|a [|b l]]; simpl in E; [done | |].
  - injection E as _ E _. by destruct Hp.
  - injection E as <- <- ->. by exists l.
Qed.

(** A comma in a text that starts with a text without commas lies beyond
    that text. *)
Lemma comma_free_cut vs X l Y :
  string_forall (fun ch => negb (Ascii.eqb "," ch)) vs = true →
  vs +:+ X = l +:+ ", " +:+ Y →
  ∃ m, l = vs +:+ m ∧ X = m +:+ ", " +:+ Y.
Proof.
  intros C E. apply append_eq_append in E as [m [[-> E]|[Evs E]]].
  - by exists m.
  - destruct m as [|x m].
    + exists EmptyString. rewrite append_nil_r in Evs. subst l.
      split; [by rewrite append_nil_r | symmetry; exact E].
    + simpl in E. injection E as <- _. rewrite Evs, string_forall_app in C.
      simpl in C. by rewrite andb_false_r in C.
Qed.

Lemma single_line_app a b :
  single_line (a +:+ b) = single_line a && single_line b.
Proof. apply string_forall_app. Qed.

Lemma single_line_prefix a b : single_line (a +:+ b) = true → single_line a = true.
Proof. rewrite single_line_app. by intros [? _]%andb_true_iff. Qed.

(** The rendering of what was captured, with the version text replaced by
    a text without commas, is captured in the same way. *)
Lemma rendered_captured s t v0 c vs :
  _RE_LIBRARY_REF s = Some (t, v0, c) →
  single_line vs = true →
  string_forall (fun ch => negb (Ascii.eqb "," ch)) vs = true →
  _RE_LIBRARY_REF (t +:+ ", " +:+ vs +:+ " (" +:+ c +:+ ")") = Some (t, vs, c).
Proof.
  intros E Lvs Cvs.
  pose proof (RE_LIBRARY_REF_sound _ _ _ _ E) as (Lt & Lv0 & Lc & rest & ->).
  assert (single_line (c +:+ ")") = true) as Lc'.
  { unfold single_line in *. by rewrite string_forall_app, Lc. }
  set (s := t +:+ ", " +:+ v0 +:+ " (" +:+ c +:+ ")" +:+ rest) in *.
  apply RE_LIBRARY_REF_greatest.
  { repeat split; try done. by exists EmptyString. }
  intros t2 v2 c2 (Lt2 & Lv2 & Lc2 & r2 & E2).
  destruct (le_lt_dec (String.length t2) (String.length t)) as [L|L].
  2:{ (* a longer title: there would be one in [s] too *)
    exfalso. apply append_eq_append in E2 as [l [[-> E2]|[-> E2]]];
      rewrite length_append in L; [|lia].
    simpl in E2. apply shift2_cut in E2 as (l2 & -> & E2);
      [|done | intros ->; simpl in L; lia].
    apply comma_free_cut in E2 as (m & -> & E2); [|done].
    destruct m as [|x1 [|x2 m]]; simpl in E2; [done | by injection E2 | ].
    injection E2 as <- <- E2.
    assert (matches s (t +:+ ", " +:+ v0 +:+ " (" +:+ m) v2 c2) as M.
    { split; [|split; [done | split; [done |]]].
      - change (single_line (t +:+ ", " +:+ vs +:+ " (" +:+ m) = true) in Lt2.
        rewrite (single_line_app t), (single_line_app ", "),
          (single_line_app vs), (single_line_app " (") in Lt2.
        rewrite (single_line_app t), (single_line_app ", "),
          (single_line_app v0), (single_line_app " ("), Lt, Lv0.
        apply andb_true_iff in Lt2 as [_ Lt2].
        apply andb_true_iff in Lt2 as [_ Lt2].
        apply andb_true_iff in Lt2 as [_ Lt2].
        by apply andb_true_iff in Lt2 as [_ ->].
      - exists (r2 +:+ rest). unfold s.
        assert (c +:+ ")" +:+ rest
                = m +:+ ", " +:+ v2 +:+ " (" +:+ c2 +:+ ")" +:+ r2 +:+ rest)
          as ->.
        { rewrite <- append_assoc, E2.
          repeat (rewrite ?append_assoc; simpl). reflexivity. }
        repeat (rewrite ?append_assoc; simpl). reflexivity. }
    destruct (captures_longest _ _ _ _ _ _ _ M E) as [Lm _].
    rewrite !length_append in Lm. simpl in Lm. lia. }
  split; [done |]. intros Et.
  apply append_eq_length in E2 as [-> E2]; [|done].
  simpl in E2. injection E2 as E2.
  destruct (le_lt_dec (String.length v2) (String.length vs)) as [Lv|Lv].
  2:{ (* a longer version: there would be one in [s] too *)
    exfalso. apply append_eq_append in E2 as [l [[-> E2]|[-> E2]]];
      rewrite length_append in Lv; [|lia].
    simpl in E2. apply shift2_cut in E2 as (l2 & -> & E2);
      [|done | intros ->; simpl in Lv; lia].
    assert (matches s t2 (v0 +:+ " (" +:+ l2) c2) as M.
    { split; [done | split; [|split; [done |]]].
      - rewrite E2 in Lc'. apply single_line_prefix in Lc'.
        by rewrite (single_line_app v0), (single_line_app " ("), Lv0, Lc'.
      - exists (r2 +:+ rest). unfold s.
        assert (c +:+ ")" +:+ rest
                = l2 +:+ " (" +:+ c2 +:+ ")" +:+ r2 +:+ rest) as ->.
        { rewrite <- append_assoc, E2.
          repeat (rewrite ?append_assoc; simpl). reflexivity. }
        repeat (rewrite ?append_assoc; simpl). reflexivity. }
    destruct (captures_longest _ _ _ _ _ _ _ M E) as [_ Km].
    destruct Km as (_ & Lm & _); [done |].
    rewrite !length_append in Lm. simpl in Lm. lia. }
  split; [done |]. intros Ev.
  apply append_eq_length in E2 as [-> E2]; [|done].
  simpl in E2. injection E2 as E2.
  apply (f_equal String.length) in E2. rewrite !length_append in E2.
  simpl in E2. lia.
Qed.

(** The rendering of a reference that was read is read again. *)
Lemma from_string_reread full_name (r : TcLibraryReference.t) :
  from_string full_name = Ok r →
  ∃ r', from_string (__str__ r) = Ok r'
        ∧ title r' = title r ∧ company r' = company r
        ∧ py_eq (version r') (version r) = true
        ∧ __eq__ r' r = true.
Proof.
  unfold from_string at 1.
  destruct (parse_string full_name) as [[[t ver] c]|e] eqn:P; simpl; [|done].
  intros [= <-].
  destruct (proj2 (proj2 (parse_string_cases full_name)) _ _ _ P)
    as (v0 & E & _ & Hv).
  destruct (String.eqb v0 "*").
  - subst ver.
    assert (_RE_LIBRARY_REF (__str__ (__init__ t (VStr "*") c))
            = Some (t, "*", c)) as R
      by by apply (rendered_captured full_name t v0 c "*").
    unfold from_string, parse_string. rewrite R. simpl.
    eexists. split; [done |]. simpl. repeat split.
    unfold __eq__. simpl. by rewrite !String.eqb_refl.
  - destruct Hv as (p & _ & ->). destruct (version_str_chars p) as [_ C].
    assert (_RE_LIBRARY_REF (__str__ (__init__ t (VVer p) c))
            = Some (t, version_str p, c)) as R.
    { apply (rendered_captured full_name t v0 c (version_str p)); [done | |].
      - eapply string_forall_impl; [apply pep440_not_newline | done].
      - eapply string_forall_impl; [apply pep440_not_comma | done]. }
    unfold from_string, parse_string. rewrite R.
    rewrite version_str_not_wildcard.
    destruct (version_parse_str p) as (p' & -> & Ev). simpl.
    eexists. split; [done |]. simpl. rewrite Ev.
    repeat split. unfold __eq__. simpl. rewrite Ev. simpl.
    by rewrite !String.eqb_refl.
Qed.

(** X20. What [from_string] has read is read back from its rendering: for
    every text that [from_string] reads as a reference, the rendering of
    that reference is read as a reference of the same title and company and
    an equal version. *)
Theorem reread_stable full_name (r : TcLibraryReference.t) :
  from_string full_name = Ok r →
  ∃ r', from_string (__str__ r) = Ok r'
        ∧ title r' = title r ∧ company r' = company r
        ∧ py_eq (version r') (version r) = true
        ∧ __eq__ r' r = true.
Proof. apply from_string_reread. Qed.

End RereadFacts.

(** ** A scan that raises, and the reference of a library *)

Section ScanFacts.
Context `{PackagingVersion}.
Import TcLibrary.
Implicit Types (fs : FileSystem) (registry : gset Path.t) (path : Path.t).

(** The loop over two runs of files is the loop over the first and then,
    when that returned, the loop over the second. *)
Lemma libraries_of_app fs before after registry :
  libraries_of fs registry (before ++ after)
  = match libraries_of fs registry before with
    | (mid, Raise e) => (mid, Raise e)
    | (mid, Ok libs) =>
        match libraries_of fs mid after with
        | (registry', Raise e) => (registry', Raise e)
        | (registry', Ok libs') => (registry', Ok (libs ++ libs'))
        end
    end.
Proof.
  revert registry. induction before as [|p before IH]; simpl; intros registry.
  - by destruct (libraries_of fs registry after) as [r [l|e]].
  - destruct (__init__ fs registry (Path.parent p)) as [r1 [lib|e]]; [|done].
    rewrite IH.
    destruct (libraries_of fs r1 before) as [r2 [libs|e]]; [|done].
    by destruct (libraries_of fs r2 after) as [r3 [libs'|e]].
Qed.

(** The loop raises at the first file whose folder is not constructed. *)
Lemma libraries_of_raises fs found registry registry' e :
  libraries_of fs registry found = (registry', Raise e)
  ↔ ∃ before p after mid (libs : list TcLibrary.t),
      found = before ++ p :: after
      ∧ libraries_of fs registry before = (mid, Ok libs)
      ∧ __init__ fs mid (Path.parent p) = (registry', Raise e).
Proof.
  split.
  - revert registry. induction found as [|p found IH]; simpl; intros registry;
      [done |].
    destruct (__init__ fs registry (Path.parent p)) as [r1 [lib|e1]] eqn:E.
    + destruct (libraries_of fs r1 found) as [r2 [libs|e2]] eqn:E'; [done |].
      intros [= <- <-].
      destruct (IH _ E') as (before & q & after & mid & libs & -> & B & Q).
      exists (p :: before), q, after, mid, (lib :: libs).
      split; [done |]. split; [|done]. simpl. by rewrite E, B.
    + intros [= <- <-]. exists [], p, found, registry, [].
      by split; [|split].
  - intros (before & p & after & mid & libs & -> & B & Q).
    rewrite libraries_of_app, B. simpl. by rewrite Q.
Qed.

(** X21. A scan raises in two cases and no other: the path does not exist,
    and then [FileNotFoundError] names it and nothing is bound; or the
    folders of the files found before some file were all constructed and
    the construction of the folder of that file raises: the scan raises the
    error of that construction, whatever files come after it. *)
Theorem get_library_repository_raises fs registry tc_path registry' e :
  get_library_repository fs registry tc_path = (registry', Raise e)
  ↔ (exists_ fs tc_path = false ∧ registry' = registry
     ∧ e = FileNotFoundError
             ("Path '" +:+ Path.__str__ tc_path +:+ "' does not exist!"))
    ∨ (exists_ fs tc_path = true
       ∧ ∃ before p after mid (libs : list TcLibrary.t),
           glob_browsercache fs tc_path = before ++ p :: after
           ∧ libraries_of fs registry before = (mid, Ok libs)
           ∧ __init__ fs mid (Path.parent p) = (registry', Raise e)).
Proof.
  unfold get_library_repository.
  destruct (exists_ fs tc_path); simpl; split.
  - intros E. right. split; [done |]. by apply libraries_of_raises.
  - intros [(? & _)|(_ & E)]; [done |]. by apply libraries_of_raises.
  - intros [= <- <-]. by left.
  - intros [(_ & -> & ->)|(? & _)]; done.
Qed.

(** X22. The reference of a library constructed from a folder is what
    [from_string] reads from the name in its [browsercache], and its
    rendering is read back as an equal reference. *)
Theorem as_reference_of_folder fs registry path registry' (lib : TcLibrary.t) :
  __init__ fs registry path = (registry', Ok lib) →
  is_dir fs path = true →
  ∃ full_name,
    browsercache_name fs (Path.truediv path "browsercache") = Some full_name
    ∧ TcLibraryReference.from_string full_name = Ok (as_reference lib)
    ∧ ∃ r', TcLibraryReference.from_string
              (TcLibraryReference.__str__ (as_reference lib)) = Ok r'
            ∧ TcLibraryReference.__eq__ r' (as_reference lib) = true.
Proof.
  intros E D.
  apply library_init_ok in E as (_ & _ & _ & _ & _ & F & _).
  destruct (F D) as (_ & full_name & N & R).
  assert (as_reference lib = reference lib) as -> by by destruct lib as [[]].
  exists full_name. split; [done |]. split; [done |].
  destruct (from_string_reread _ _ R) as (r' & R' & _ & _ & _ & Q).
  by exists r'.
Qed.

End ScanFacts.

(** A repository of two folders, the second with a name that is no
    reference string. *)
Definition folder_3_4 : Path.t :=
  ["Managed Libraries"; "Beckhoff Automation GmbH"; "Tc2_Standard"; "3.4.0.0"].

Definition fs_damaged : FileSystem := {|
  resolve p := p;
  is_dir p := bool_decide (p = folder) || bool_decide (p = folder_3_4);
  exists_ _ := true;
  browsercache_name p :=
    if bool_decide (p = Path.truediv folder "browsercache")
    then Some "Tc2_Standard, 3.3.3.0 (Beckhoff Automation GmbH)"
    else if bool_decide (p = Path.truediv folder_3_4 "browsercache")
         then Some "Tc2_Standard 3.4.0.0"
         else None;
  plcproj_text _ := None;
  glob_browsercache _ :=
    [Path.truediv folder "browsercache";
     Path.truediv folder_3_4 "browsercache"];
|}.

Section ScanInstances.
Import TcLibraryReference.

Lemma damaged_first :
  TcLibrary.__init__ fs_damaged ∅ folder = ({[ folder ]} ∪ ∅, Ok tc2_standard).
Proof.
  unfold TcLibrary.__init__, UniquePath.__init__.
  rewrite decide_False by set_solver. reflexivity.
Qed.

Lemma damaged_second :
  TcLibrary.__init__ fs_damaged ({[ folder ]} ∪ ∅) folder_3_4
  = ({[ folder_3_4 ]} ∪ ({[ folder ]} ∪ ∅),
     Raise (TcLibrary.invalid_browsercache
              (Path.truediv folder_3_4 "browsercache"))).
Proof.
  unfold TcLibrary.__init__, UniquePath.__init__.
  rewrite decide_False; [reflexivity |].
  intros [E|E]%elem_of_union; [|by apply elem_of_empty in E].
  by apply elem_of_singleton in E.
Qed.

Lemma damaged_scanned :
  TcLibrary.get_library_repository fs_damaged ∅ ["Managed Libraries"]
  = ({[ folder_3_4 ]} ∪ ({[ folder ]} ∪ ∅),
     Raise (TcLibrary.invalid_browsercache
              (Path.truediv folder_3_4 "browsercache"))).
Proof.
  apply libraries_of_raises.
  exists [Path.truediv folder "browsercache"],
    (Path.truediv folder_3_4 "browsercache"), [], ({[ folder ]} ∪ ∅),
    [tc2_standard].
  split; [reflexivity |]. split; [|exact damaged_second].
  change (TcLibrary.libraries_of fs_damaged ∅
            [Path.truediv folder "browsercache"])
    with (match TcLibrary.__init__ fs_damaged ∅ folder with
          | (registry', Raise e) => (registry', Raise e)
          | (registry', Ok lib) => (registry', Ok [lib])
          end).
  by rewrite damaged_first.
Qed.

(** X20 at work: a reference read from a line with a remark after it. *)
Lemma reread_stable_witness :
  from_string "Tc2_Standard, 3.3.3.0 (Beckhoff) [installed]"
  = Ok (ref "Tc2_Standard" v3_3_3_0 "Beckhoff")
  ∧ ∃ r', from_string (__str__ (ref "Tc2_Standard" v3_3_3_0 "Beckhoff"))
          = Ok r'
          ∧ title r' = "Tc2_Standard" ∧ company r' = "Beckhoff"
          ∧ py_eq (version r') v3_3_3_0 = true
          ∧ __eq__ r' (ref "Tc2_Standard" v3_3_3_0 "Beckhoff") = true.
Proof.
  split; [reflexivity |].
  apply (reread_stable "Tc2_Standard, 3.3.3.0 (Beckhoff) [installed]"
                       (ref "Tc2_Standard" v3_3_3_0 "Beckhoff")).
  reflexivity.
Defined.


(** X21 at work: the second folder of the repository is damaged. *)
Lemma get_library_repository_raises_witness :
  TcLibrary.get_library_repository fs_damaged ∅ ["Managed Libraries"]
  = ({[ folder_3_4 ]} ∪ ({[ folder ]} ∪ ∅),
     Raise (TcLibrary.invalid_browsercache
              (Path.truediv folder_3_4 "browsercache")))
  ∧ ∃ before p after mid (libs : list TcLibrary.t),
      glob_browsercache fs_damaged ["Managed Libraries"]
      = before ++ p :: after
      ∧ TcLibrary.libraries_of fs_damaged ∅ before = (mid, Ok libs)
      ∧ TcLibrary.__init__ fs_damaged mid (Path.parent p)
        = ({[ folder_3_4 ]} ∪ ({[ folder ]} ∪ ∅),
           Raise (TcLibrary.invalid_browsercache
                    (Path.truediv folder_3_4 "browsercache"))).
Proof.
  split; [exact damaged_scanned |].
  destruct (proj1 (get_library_repository_raises
                     fs_damaged ∅ ["Managed Libraries"] _ _) damaged_scanned)
    as [(X & _)|(_ & D)]; [discriminate X | exact D].
Defined.

(** X22 at work: the library of the folder. *)
Lemma as_reference_of_folder_witness :
  ∃ full_name,
    browsercache_name fs_installed (Path.truediv folder "browsercache")
    = Some full_name
    ∧ from_string full_name = Ok (TcLibrary.as_reference tc2_standard)
    ∧ ∃ r', from_string (__str__ (TcLibrary.as_reference tc2_standard))
            = Ok r'
            ∧ __eq__ r' (TcLibrary.as_reference tc2_standard) = true.
Proof.
  apply (as_reference_of_folder fs_installed ∅ folder _ tc2_standard
           folder_constructed).
  reflexivity.
Defined.

End ScanInstances.
